(** * RealtimeMessage: message delivery and conversation state

    A shallow embedding of the server side of the repository:

    - [server/utils/crypto.js]: [encryptMessage] / [decryptMessage]
      (AES-256-CBC, hex envelope [iv:ciphertext]);
    - [server/utils/encryption.js]: [encrypt] / [decrypt];
    - [server/models/Message.js] and the conversation model
      ([ConversationSchema], its validators and [pre('save')] hook, the
      statics [findOrCreateDirect] and [createGroup]);
    - [server/controllers/messageController.js]: the HTTP handlers;
    - [server/socket.js]: the live-connection handlers.

    Conventions of the embedding.

    - A JavaScript string is the list of its UTF-16 code units, numbers
      below 65536 in which a surrogate need not belong to a pair; a
      [Buffer] is a [list byte].  A string becomes bytes by UTF-8
      encoding, where a surrogate outside a pair is written as U+FFFD,
      and bytes become a string by UTF-8 decoding with replacement.
    - An ObjectId is a [nat]; a collection is a [gmap] keyed by [_id], so
      that identifiers are unique by construction.  A query without a sort
      enumerates a collection in the order of [map_to_list].
    - [new Date()] is an argument [now] of the handler that reads the
      clock; [crypto.randomBytes(IV_LENGTH)] is an argument [iv].
    - The block cipher itself (one AES-256 block under a key) belongs to
      the platform: it is a parameter of the development, together with
      the fact that deciphering a block undoes enciphering it.
    - A document has the paths of its schema and no other: what a
      handler reads from, or filters on, a path that the schema does not
      declare is undefined.  [save()] runs the validators of the schema
      and rejects, writing nothing, when one of them fails.
    - Where a handler always throws at some line, or always returns
      early, the lines after it are not modelled; the comment of the
      handler names them.
    - [populate] is modelled for the participants of the conversation
      views, which read the names of the users; elsewhere it only adds
      user documents to an answer and is left out.
    - A handler is a function from the state of the world before the call
      to the response and the state afterwards; events pushed through
      socket.io are appended to the [outbox] of the world. *)

From Stdlib Require Import String Ascii List Bool Arith NArith ZArith Lia.
From Stdlib Require Import Sorting.Sorted Sorting.Permutation.
From stdpp Require Import gmap sorting.
Import ListNotations.

Open Scope string_scope.
Open Scope nat_scope.
Open Scope list_scope.

(** ** Results of code that may throw *)

Inductive Result (A : Type) : Type :=
| Returns (a : A)
| Throws (message : string).
Arguments Returns {A} a.
Arguments Throws {A} message.

(** ** JavaScript strings

    A string of JavaScript is a sequence of 16-bit code units (UTF-16),
    in which a surrogate need not be part of a pair. *)

Definition CodeUnit : Type := N.
Definition JSString : Type := list CodeUnit.

(** A literal of the source text, one code unit per character (the
    literals of the modelled code are ASCII). *)
Definition js (literal : string) : JSString :=
  List.map N_of_ascii (list_ascii_of_string literal).

Definition byte : Type := ascii.

(** ** UTF-8, as the platform converts between strings and buffers *)

Module Utf8.

Definition is_lead (c : CodeUnit) : bool := ((0xD800 <=? c) && (c <=? 0xDBFF))%N.
Definition is_trail (c : CodeUnit) : bool := ((0xDC00 <=? c) && (c <=? 0xDFFF))%N.

(** U+FFFD, written in place of what cannot be converted. *)
Definition replacement : N := 0xFFFD%N.

(** The code point of a surrogate pair. *)
Definition pair_point (lead trail : CodeUnit) : N :=
  (0x10000 + (lead - 0xD800) * 0x400 + (trail - 0xDC00))%N.

(** The code units of a code point. *)
Definition units (point : N) : JSString :=
  if (point <? 0x10000)%N then [point]
  else [ (0xD800 + (point - 0x10000) / 0x400)%N;
         (0xDC00 + (point - 0x10000) mod 0x400)%N ].

(** The bytes of a code point: one to four, by its size. *)
Definition encode_point (point : N) : list byte :=
  if (point <? 0x80)%N then [ascii_of_N point]
  else if (point <? 0x800)%N then
    [ ascii_of_N (0xC0 + point / 64); ascii_of_N (0x80 + point mod 64) ]
  else if (point <? 0x10000)%N then
    [ ascii_of_N (0xE0 + point / 4096);
      ascii_of_N (0x80 + (point / 64) mod 64);
      ascii_of_N (0x80 + point mod 64) ]
  else
    [ ascii_of_N (0xF0 + point / 262144);
      ascii_of_N (0x80 + (point / 4096) mod 64);
      ascii_of_N (0x80 + (point / 64) mod 64);
      ascii_of_N (0x80 + point mod 64) ].

(** Encoding of a string: a surrogate pair is one code point of four
    bytes; a surrogate outside a pair has no encoding and U+FFFD is
    written in its place. *)
Fixpoint encode (text : JSString) : list byte :=
  match text with
  | [] => []
  | c :: rest =>
      if is_lead c then
        match rest with
        | d :: rest' =>
            if is_trail d then encode_point (pair_point c d) ++ encode rest'
            else encode_point replacement ++ encode rest
        | [] => encode_point replacement
        end
      else if is_trail c then encode_point replacement ++ encode rest
      else encode_point c ++ encode rest
  end.

(** A character begun and not yet complete: the number of bytes still
    needed, the bits read so far, and the range allowed for the next
    byte. *)
Record Pending : Type := {
  needed : nat;
  point : N;
  lower : N;
  upper : N
}.

(** A byte read when no character is pending: an ASCII byte is a
    character, a lead byte opens a sequence, any other byte is an
    error. *)
Definition start (b : N) : JSString * option Pending :=
  if (b <=? 0x7F)%N then ([b], None)
  else if ((0xC2 <=? b) && (b <=? 0xDF))%N then
    ([], Some {| needed := 1; point := (b - 0xC0)%N;
                 lower := 0x80%N; upper := 0xBF%N |})
  else if ((0xE0 <=? b) && (b <=? 0xEF))%N then
    ([], Some {| needed := 2; point := (b - 0xE0)%N;
                 lower := if (b =? 0xE0)%N then 0xA0%N else 0x80%N;
                 upper := if (b =? 0xED)%N then 0x9F%N else 0xBF%N |})
  else if ((0xF0 <=? b) && (b <=? 0xF4)%N)%N then
    ([], Some {| needed := 3; point := (b - 0xF0)%N;
                 lower := if (b =? 0xF0)%N then 0x90%N else 0x80%N;
                 upper := if (b =? 0xF4)%N then 0x8F%N else 0xBF%N |})
  else ([replacement], None).

(** Decoding with replacement: a byte that cannot continue the pending
    sequence ends it with U+FFFD and is read again as the start of a
    character; a sequence cut short by the end of the buffer gives
    U+FFFD. *)
Fixpoint decode_from (pending : option Pending) (buf : list byte) : JSString :=
  match buf with
  | [] =>
      match pending with
      | Some _ => [replacement]
      | None => []
      end
  | b :: rest =>
      let n := N_of_ascii b in
      match pending with
      | Some p =>
          if ((lower p <=? n) && (n <=? upper p))%N then
            let point' := (point p * 64 + (n - 0x80))%N in
            match needed p with
            | S (S k) =>
                decode_from
                  (Some {| needed := S k; point := point';
                           lower := 0x80%N; upper := 0xBF%N |}) rest
            | _ => units point' ++ decode_from None rest
            end
          else
            let '(out, next) := start n in
            replacement :: out ++ decode_from next rest
      | None =>
          let '(out, next) := start n in
          out ++ decode_from next rest
      end
  end.

Definition decode (buf : list byte) : JSString := decode_from None buf.

(** A code point that is not a surrogate. *)
Definition scalar (p : N) : Prop :=
  (p < 0xD800 \/ (0xE000 <= p /\ p < 0x110000))%N.

(** A string of 16-bit code units without a surrogate outside a
    pair. *)
Fixpoint well_formed (text : JSString) : bool :=
  match text with
  | [] => true
  | c :: rest =>
      if is_lead c then
        match rest with
        | d :: rest' => is_trail d && well_formed rest'
        | [] => false
        end
      else negb (is_trail c) && (c <? 0x10000)%N && well_formed rest
  end.

End Utf8.

(** ** Buffers *)

Module Buffer.

Definition xor_byte (a b : byte) : byte :=
  match a, b with
  | Ascii a0 a1 a2 a3 a4 a5 a6 a7, Ascii b0 b1 b2 b3 b4 b5 b6 b7 =>
      Ascii (xorb a0 b0) (xorb a1 b1) (xorb a2 b2) (xorb a3 b3)
            (xorb a4 b4) (xorb a5 b5) (xorb a6 b6) (xorb a7 b7)
  end.

Fixpoint xor (x y : list byte) : list byte :=
  match x, y with
  | a :: x', b :: y' => xor_byte a b :: xor x' y'
  | _, _ => []
  end.

(** One lowercase hexadecimal digit. *)
Definition hex_digit (n : N) : CodeUnit :=
  (if n <? 10 then 48 + n else 87 + n)%N.

(** [buf.toString('hex')]: two lowercase digits per byte. *)
Fixpoint toString_hex (buf : list byte) : JSString :=
  match buf with
  | [] => []
  | b :: rest =>
      hex_digit (N_of_ascii b / 16) :: hex_digit (N_of_ascii b mod 16)
        :: toString_hex rest
  end.

(** The value of one hexadecimal digit, either case. *)
Definition hex_value (c : CodeUnit) : option N :=
  if ((48 <=? c) && (c <=? 57))%N then Some (c - 48)%N
  else if ((97 <=? c) && (c <=? 102))%N then Some (c - 87)%N
  else if ((65 <=? c) && (c <=? 70))%N then Some (c - 55)%N
  else None.

(** [Buffer.from(text, 'hex')]: decodes pairs of digits and stops at the
    first pair that is not hexadecimal; a trailing single character is
    dropped. *)
Fixpoint from_hex (text : JSString) : list byte :=
  match text with
  | c1 :: c2 :: rest =>
      match hex_value c1, hex_value c2 with
      | Some h, Some l => ascii_of_N (16 * h + l) :: from_hex rest
      | _, _ => []
      end
  | _ => []
  end.

(** [Buffer.from(text)], and a string given to [cipher.update]: the
    UTF-8 encoding.  [buf.toString()]: the UTF-8 decoding. *)
Definition from_string (text : JSString) : list byte := Utf8.encode text.
Definition toString (buf : list byte) : JSString := Utf8.decode buf.

End Buffer.

(** ** JavaScript string and array helpers *)

Module JS.

Definition colon : CodeUnit := 58%N.

(** [text.split(':')]: always at least one part. *)
Fixpoint split_colon (text : JSString) : list JSString :=
  match text with
  | [] => [[]]
  | c :: rest =>
      if (c =? colon)%N then [] :: split_colon rest
      else match split_colon rest with
           | part :: parts => (c :: part) :: parts
           | [] => [[c]]
           end
  end.

(** [parts.join(':')]. *)
Fixpoint join_colon (parts : list JSString) : JSString :=
  match parts with
  | [] => []
  | [part] => part
  | part :: rest => part ++ colon :: join_colon rest
  end.

(** [parts.join(', ')]. *)
Fixpoint join_comma (parts : list JSString) : JSString :=
  match parts with
  | [] => []
  | [part] => part
  | part :: rest => part ++ js ", " ++ join_comma rest
  end.

(** [items.includes(x)]. *)
Definition includes (items : list nat) (x : nat) : bool :=
  existsb (Nat.eqb x) items.

(** Adding [items] one by one to a [Set] that holds [seen]. *)
Fixpoint set_add_all (seen items : list nat) : list nat :=
  match items with
  | [] => seen
  | x :: rest =>
      if includes seen x then set_add_all seen rest
      else set_add_all (seen ++ [x]) rest
  end.

(** [[...new Set(items)]]: the items in order of first occurrence. *)
Definition spread_Set (items : list nat) : list nat := set_add_all [] items.

End JS.
(** ** [server/utils/crypto.js] *)

Definition IV_LENGTH : nat := 16.

(** The key and block sizes of ['aes-256-cbc'], in bytes. *)
Definition KEY_LENGTH : nat := 32.
Definition BLOCK : nat := 16.

Module Pkcs7.

(** Padding added by [cipher.final()]: between 1 and 16 bytes, each
    holding the number of bytes added. *)
Definition pad (data : list byte) : list byte :=
  let n := BLOCK - (length data mod BLOCK) in
  data ++ repeat (ascii_of_nat n) n.

(** Check made by [decipher.final()] on the deciphered text. *)
Definition unpad (data : list byte) : option (list byte) :=
  match rev data with
  | [] => None
  | b :: _ =>
      let n := nat_of_ascii b in
      if (1 <=? n) && (n <=? BLOCK) && (n <=? length data)
         && forallb (Ascii.eqb b) (skipn (length data - n) data)
      then Some (firstn (length data - n) data)
      else None
  end.

End Pkcs7.

(** ** [server/models/Message.js] *)

Module Message.

Record Metadata : Type := {
  timestamp : Z;
  ipAddress : option JSString;
  userAgent : option JSString
}.

Record t : Type := {
  _id : nat;
  conversationId : nat;
  sender : nat;
  recipient : nat;
  content : JSString;
  isEncrypted : bool;
  read : bool;
  metadata : Metadata;
  createdAt : Z;
  updatedAt : Z
}.

Definition with_content (text : JSString) (m : t) : t :=
  {| _id := _id m; conversationId := conversationId m; sender := sender m;
     recipient := recipient m; content := text;
     isEncrypted := isEncrypted m; read := read m; metadata := metadata m;
     createdAt := createdAt m; updatedAt := updatedAt m |}.

(** [message.read = true] saved at time [now]. *)
Definition mark_read (now : Z) (m : t) : t :=
  {| _id := _id m; conversationId := conversationId m; sender := sender m;
     recipient := recipient m; content := content m;
     isEncrypted := isEncrypted m; read := true; metadata := metadata m;
     createdAt := createdAt m; updatedAt := now |}.

(** The validators that [save()] runs on a message built by a handler:
    the three identifiers are always supplied; [content] is required,
    and a required String path refuses the empty string. *)
Definition validate (m : t) : bool := negb (length (content m) =? 0).

(** [Message.find(query)] in the natural order of the collection. *)
Definition find (query : t -> bool) (collection : gmap nat t) : list t :=
  List.filter query (List.map snd (map_to_list collection)).

(** [.sort({ createdAt: -1 })]: stable insertion, newest first. *)
Fixpoint insert_desc (m : t) (sorted : list t) : list t :=
  match sorted with
  | [] => [m]
  | x :: rest =>
      if (createdAt m <? createdAt x)%Z then x :: insert_desc m rest
      else m :: x :: rest
  end.

Definition sort_createdAt_desc (l : list t) : list t :=
  List.fold_right insert_desc [] l.

(** [Message.deleteMany({ conversationId })]. *)
Definition deleteMany (conversation : nat) (collection : gmap nat t)
  : gmap nat t :=
  filter (fun kv => conversationId (snd kv) <> conversation) collection.

End Message.

(** ** [server/models/User.js]: the paths that [populate] selects *)

Module User.

Record t : Type := {
  _id : nat;
  firstName : JSString;
  lastName : JSString;
  email : JSString
}.

End User.

(** ** The conversation model *)

Module Conversation.

Record Participant : Type := {
  user : nat;
  hasUnread : bool;
  lastRead : Z;
  isMuted : bool;
  isPinned : bool
}.

Record Settings : Type := {
  onlyAdminsCanPost : bool;
  onlyAdminsCanEdit : bool;
  onlyAdminsCanAddMembers : bool;
  allowMemberInvites : bool;
  requireApproval : bool
}.

Module GroupInfo.
Record t : Type := {
  name : option JSString;
  description : JSString;
  createdBy : option nat;
  admins : list nat;
  avatar : option JSString;
  settings : Settings
}.
End GroupInfo.

Module LastMessage.
Record t : Type := {
  messageId : nat;
  sender : nat;
  content : JSString;
  timestamp : Z
}.
End LastMessage.

Module Metadata.
Record t : Type := {
  createdBy : option nat;
  updatedAt : Z
}.
End Metadata.

(** A document of [ConversationSchema], with the paths of the schema
    that the modelled code reads or writes.  The name, the creator and
    the admins of a group are paths of [groupInfo]; the schema declares
    no [name], [createdBy] or [admins] at the top of the document. *)
Record t : Type := {
  _id : nat;
  participants : list nat;
  isGroup : bool;
  groupInfo : GroupInfo.t;
  lastMessage : option LastMessage.t;
  unreadCount : nat;
  metadata : Metadata.t;
  participantDetails : list Participant;
  tags : list JSString;
  updatedAt : Z
}.

(** The optional argument of [createGroup]. *)
Module Options.
Record t : Type := {
  description : option JSString;
  avatar : option JSString;
  onlyAdminsCanPost : option bool;
  onlyAdminsCanEdit : option bool;
  onlyAdminsCanAddMembers : option bool;
  allowMemberInvites : option bool;
  requireApproval : option bool;
  tags : option (list JSString)
}.
Definition none : t :=
  {| description := None; avatar := None; onlyAdminsCanPost := None;
     onlyAdminsCanEdit := None; onlyAdminsCanAddMembers := None;
     allowMemberInvites := None; requireApproval := None; tags := None |}.
End Options.

Definition default_settings : Settings :=
  {| onlyAdminsCanPost := false; onlyAdminsCanEdit := false;
     onlyAdminsCanAddMembers := false; allowMemberInvites := true;
     requireApproval := false |}.

Definition default_groupInfo : GroupInfo.t :=
  {| GroupInfo.name := None; GroupInfo.description := [];
     GroupInfo.createdBy := None; GroupInfo.admins := [];
     GroupInfo.avatar := None; GroupInfo.settings := default_settings |}.

Definition new_participant (now : Z) (userId : nat) : Participant :=
  {| user := userId; hasUnread := false; lastRead := now;
     isMuted := false; isPinned := false |}.

Definition set_updatedAt (now : Z) (c : t) : t :=
  {| _id := _id c; participants := participants c; isGroup := isGroup c;
     groupInfo := groupInfo c; lastMessage := lastMessage c;
     unreadCount := unreadCount c; metadata := metadata c;
     participantDetails := participantDetails c; tags := tags c;
     updatedAt := now |}.

(** [arrayLimit]: [val.length >= 2].  The argument is the [length]
    property of the value under validation, when it has one; without
    it the comparison is [undefined >= 2], which is false. *)
Definition arrayLimit (val_length : option nat) : bool :=
  match val_length with
  | Some n => 2 <=? n
  | None => false
  end.

(** The validators that [save()] runs before the [pre('save')] hook.
    The schema attaches [arrayLimit] to the element of [participants]
    (lines 90-95), so it is called on every participant, an ObjectId,
    which has no [length].  [metadata.createdBy] is required.  A last
    message is a sub-document whose [content] is required. *)
Definition validate (c : t) : bool :=
  forallb (fun _ : nat => arrayLimit None) (participants c)
  && match Metadata.createdBy (metadata c) with
     | Some _ => true
     | None => false
     end
  && match lastMessage c with
     | Some last => negb (length (LastMessage.content last) =? 0)
     | None => true
     end.

(** The [pre('save')] hook. *)
Definition pre_save (isNew : bool) (now : Z) (c : t) : t :=
  let details :=
    if isNew && (length (participantDetails c) =? 0)
       && negb (length (participants c) =? 0)
    then List.map (new_participant now) (participants c)
    else participantDetails c in
  let creator :=
    if isNew then
      match Metadata.createdBy (metadata c), participants c with
      | None, first :: _ => Some first
      | by_, _ => by_
      end
    else Metadata.createdBy (metadata c) in
  {| _id := _id c; participants := participants c; isGroup := isGroup c;
     groupInfo := groupInfo c; lastMessage := lastMessage c;
     unreadCount := unreadCount c;
     metadata := {| Metadata.createdBy := creator; Metadata.updatedAt := now |};
     participantDetails := details; tags := tags c;
     updatedAt := updatedAt c |}.

(** [doc.save()]: validates; then runs the hook, stamps [updatedAt] and
    writes the document under its [_id].  A document that fails
    validation is not written and [save()] rejects. *)
Definition save (isNew : bool) (now : Z) (c : t) (collection : gmap nat t)
  : Result (t * gmap nat t) :=
  if validate c then
    let doc := set_updatedAt now (pre_save isNew now c) in
    Returns (doc, <[ _id doc := doc ]> collection)
  else Throws "ValidationError".

(** [Conversation.findOne(query)] without an [_id]: the first match in
    the natural order of the collection. *)
Definition findOne (query : t -> bool) (collection : gmap nat t) : option t :=
  List.find query (List.map snd (map_to_list collection)).

(** The query of [findOrCreateDirect]: a direct conversation whose
    participants hold both users and number exactly two. *)
Definition direct_query (user1Id user2Id : nat) (c : t) : bool :=
  negb (isGroup c)
  && JS.includes (participants c) user1Id
  && JS.includes (participants c) user2Id
  && (length (participants c) =? 2).

(** The document built by [findOrCreateDirect] when it finds none. *)
Definition new_direct (id user1Id user2Id : nat) (now : Z) : t :=
  {| _id := id;
     participants := [user1Id; user2Id];
     isGroup := false;
     groupInfo := default_groupInfo;
     lastMessage := None;
     unreadCount := 0;
     metadata := {| Metadata.createdBy := Some user1Id;
                    Metadata.updatedAt := now |};
     participantDetails :=
       [ {| user := user1Id; hasUnread := false; lastRead := now;
            isMuted := false; isPinned := false |};
         {| user := user2Id; hasUnread := false; lastRead := now;
            isMuted := false; isPinned := false |} ];
     tags := [];
     updatedAt := now |}.

Definition findOrCreateDirect (user1Id user2Id : nat) (now : Z)
    (collection : gmap nat t) : Result (t * gmap nat t) :=
  match findOne (direct_query user1Id user2Id) collection with
  | Some conversation => Returns (conversation, collection)
  | None =>
      save true now (new_direct (fresh (dom collection)) user1Id user2Id now)
        collection
  end.

Definition or_false (o : option bool) : bool :=
  match o with Some b => b | None => false end.

(** The document built by [createGroup]. *)
Definition new_group (id creatorId : nat) (groupName : option JSString)
    (members : list nat) (options : Options.t) (now : Z) : t :=
  let allParticipants := JS.spread_Set (creatorId :: members) in
  {| _id := id;
     participants := allParticipants;
     isGroup := true;
     groupInfo :=
       {| GroupInfo.name := groupName;
          GroupInfo.description :=
            match Options.description options with
            | Some d => d
            | None => []
            end;
          GroupInfo.createdBy := Some creatorId;
          GroupInfo.admins := [creatorId];
          GroupInfo.avatar := Options.avatar options;
          GroupInfo.settings :=
            {| onlyAdminsCanPost := or_false (Options.onlyAdminsCanPost options);
               onlyAdminsCanEdit := or_false (Options.onlyAdminsCanEdit options);
               onlyAdminsCanAddMembers :=
                 or_false (Options.onlyAdminsCanAddMembers options);
               allowMemberInvites :=
                 match Options.allowMemberInvites options with
                 | Some false => false
                 | _ => true
                 end;
               requireApproval := or_false (Options.requireApproval options) |} |};
     lastMessage := None;
     unreadCount := 0;
     metadata := {| Metadata.createdBy := Some creatorId;
                    Metadata.updatedAt := now |};
     participantDetails := List.map (new_participant now) allParticipants;
     tags := match Options.tags options with Some l => l | None => [] end;
     updatedAt := now |}.

Definition createGroup (creatorId : nat) (groupName : option JSString)
    (members : list nat) (options : Options.t) (now : Z)
    (collection : gmap nat t) : Result (t * gmap nat t) :=
  save true now
    (new_group (fresh (dom collection)) creatorId groupName members options now)
    collection.

End Conversation.

(** ** Responses, events and the state of the world *)

(** Where socket.io sends an event: [io.to(`user_${id}`)] reaches every
    connection of a user, [socket.emit] only the connection at hand. *)
Inductive Target : Type :=
| ToUser (userId : nat)
| ToSocket (socketId : nat).

Inductive Payload : Type :=
| PMessage (message : Message.t)
| PMessageId (messageId : nat)
| PError (message : string)
| PTyping (userId : nat) (isTyping : bool)
| PNewConversation (conversation : Conversation.t)
| PConversationDeleted (conversationId deletedBy : nat).

Record Emit : Type := {
  target : Target;
  event : string;
  payload : Payload
}.

Inductive Body : Type :=
| Error (error : string)
| Messages (messages : list Message.t) (hasMore : bool)
| SuccessWithMessage (message : Message.t)
| Success
| SuccessText (message : string)
| ConversationDoc (conversation : Conversation.t)
| ConversationView (_id : nat) (name : JSString)
    (participants : list User.t) (isGroup : bool)
    (lastMessage : option JSString).

Record Response : Type := {
  status : nat;
  body : Body
}.

Definition json (code : nat) (b : Body) : Response :=
  {| status := code; body := b |}.

Record World : Type := {
  conversations : gmap nat Conversation.t;
  messages : gmap nat Message.t;
  users : gmap nat User.t;
  outbox : list Emit
}.

Definition empty_world : World :=
  {| conversations := ∅; messages := ∅; users := ∅; outbox := [] |}.

Definition with_conversations (cs : gmap nat Conversation.t) (w : World) : World :=
  {| conversations := cs; messages := messages w; users := users w;
     outbox := outbox w |}.

Definition with_messages (ms : gmap nat Message.t) (w : World) : World :=
  {| conversations := conversations w; messages := ms; users := users w;
     outbox := outbox w |}.

Definition emit_all (events : list Emit) (w : World) : World :=
  {| conversations := conversations w; messages := messages w;
     users := users w; outbox := outbox w ++ events |}.

Definition emit (to : Target) (name : string) (p : Payload) (w : World) : World :=
  emit_all [ {| target := to; event := name; payload := p |} ] w.

(** [Conversation.findOne({ _id: conversationId, ...query })]. *)
Definition findConversation (conversationId : nat)
    (query : Conversation.t -> bool) (w : World) : option Conversation.t :=
  match conversations w !! conversationId with
  | Some c => if query c then Some c else None
  | None => None
  end.

(** What a request carries besides its parameters. *)
Record Client : Type := {
  ip : option JSString;
  user_agent : option JSString
}.

Record Socket : Type := {
  socket_id : nat;
  socket_user : nat;
  address : option JSString;
  socket_user_agent : option JSString
}.

(** The payload of [send_message]; a missing field is [None]. *)
Record SendData : Type := {
  data_conversationId : option nat;
  data_recipientId : option nat;
  data_content : option JSString
}.

(** The body of a group update; a missing field is [None]. *)
Record GroupUpdate : Type := {
  upd_name : option JSString;
  upd_participants : option (list nat);
  upd_addAdmins : option (list nat);
  upd_removeAdmins : option (list nat)
}.

(** A block permutation used to run the development on concrete inputs:
    the block xored with the first half of the key.  It stands in for the
    platform's cipher in examples only. *)
Definition xor_block_cipher (key block : list byte) : list byte :=
  Buffer.xor block (firstn BLOCK key).

Definition example_key : JSString :=
  js "000102030405060708090a0b0c0d0e0f101112131415161718191a1b1c1d1e1f".

Definition example_iv : list byte :=
  List.map ascii_of_nat
    [160; 161; 162; 163; 164; 165; 166; 167;
     168; 169; 170; 171; 172; 173; 174; 175].
(** ** The server: cipher, handlers, properties *)

Section Server.

(** One AES-256 block operation under a 32-byte key, as supplied by the
    platform. *)
Variable aes256_encrypt_block : list byte -> list byte -> list byte.
Variable aes256_decrypt_block : list byte -> list byte -> list byte.

(** [process.env.ENCRYPTION_KEY] (or the key generated at start-up), as
    the hexadecimal text it is kept in. *)
Variable ENCRYPTION_KEY : JSString.

(** What the development assumes of the block cipher: blocks stay
    blocks, and deciphering a block undoes enciphering it under the same
    key. *)
Hypothesis aes256_block_length : forall key block,
  length key = KEY_LENGTH -> length block = BLOCK ->
  length (aes256_encrypt_block key block) = BLOCK.

Hypothesis aes256_decrypt_encrypt : forall key block,
  length key = KEY_LENGTH -> length block = BLOCK ->
  aes256_decrypt_block key (aes256_encrypt_block key block) = block.

(** CBC chaining over [n] whole blocks. *)
Fixpoint cbc_encrypt (key : list byte) (n : nat) (prev data : list byte)
  : list byte :=
  match n with
  | 0 => []
  | S n' =>
      let c := aes256_encrypt_block key (Buffer.xor (firstn BLOCK data) prev) in
      c ++ cbc_encrypt key n' c (skipn BLOCK data)
  end.

Fixpoint cbc_decrypt (key : list byte) (n : nat) (prev data : list byte)
  : list byte :=
  match n with
  | 0 => []
  | S n' =>
      let c := firstn BLOCK data in
      Buffer.xor (aes256_decrypt_block key c) prev
        ++ cbc_decrypt key n' c (skipn BLOCK data)
  end.

(** [crypto.createCipheriv('aes-256-cbc', key, iv)] and
    [createDecipheriv] refuse a key that is not 32 bytes or an IV that
    is not 16 bytes. *)
Definition valid_key_iv (key iv : list byte) : bool :=
  (length key =? KEY_LENGTH) && (length iv =? IV_LENGTH).

(** [cipher.update(data)] followed by [cipher.final()]. *)
Definition cipher_update_final (key iv data : list byte) : list byte :=
  let padded := Pkcs7.pad data in
  cbc_encrypt key (length padded / BLOCK) iv padded.

(** [decipher.update(data)] followed by [decipher.final()]: fails on an
    empty or ragged input and on bad padding. *)
Definition decipher_update_final (key iv data : list byte)
  : option (list byte) :=
  if (length data =? 0) || negb (length data mod BLOCK =? 0) then None
  else Pkcs7.unpad (cbc_decrypt key (length data / BLOCK) iv data).

Definition encryptMessage (iv : list byte) (text : JSString) : Result JSString :=
  let key := Buffer.from_hex ENCRYPTION_KEY in
  if valid_key_iv key iv then
    let encrypted := cipher_update_final key iv (Buffer.from_string text) in
    Returns (Buffer.toString_hex iv ++ JS.colon :: Buffer.toString_hex encrypted)
  else Throws "Failed to encrypt message".

Definition decryptMessage (text : JSString) : Result JSString :=
  match JS.split_colon text with
  | [] => Throws "Failed to decrypt message"
  | first :: textParts =>
      let iv := Buffer.from_hex first in
      let encryptedText := Buffer.from_hex (JS.join_colon textParts) in
      let key := Buffer.from_hex ENCRYPTION_KEY in
      if valid_key_iv key iv then
        match decipher_update_final key iv encryptedText with
        | Some decrypted => Returns (Buffer.toString decrypted)
        | None => Throws "Failed to decrypt message"
        end
      else Throws "Failed to decrypt message"
  end.

(** *** [server/controllers/messageController.js] *)

Definition isParticipant (userId : nat) (c : Conversation.t) : bool :=
  JS.includes (Conversation.participants c) userId.

Definition isGroupOf (userId : nat) (c : Conversation.t) : bool :=
  Conversation.isGroup c && JS.includes (Conversation.participants c) userId.

(** The query of [getMessages]: the conversation and, when a cursor is
    given, [createdAt < before]. *)
Definition page_query (conversationId : nat) (before : option Z)
    (m : Message.t) : bool :=
  (Message.conversationId m =? conversationId)
  && match before with
     | Some cursor => (Message.createdAt m <? cursor)%Z
     | None => true
     end.

(** [Message.find(query).sort({ createdAt: -1 })]. *)
Definition find_sorted (conversationId : nat) (before : option Z)
    (w : World) : list Message.t :=
  Message.sort_createdAt_desc
    (Message.find (page_query conversationId before) (messages w)).

(** [... .limit(Number(limit) + 1)]. *)
Definition fetch_page (conversationId : nat) (before : option Z)
    (limit : nat) (w : World) : list Message.t :=
  firstn (limit + 1) (find_sorted conversationId before w).

(** The records of a page and [hasMore], before decryption. *)
Definition page_records (conversationId : nat) (before : option Z)
    (limit : nat) (w : World) : list Message.t * bool :=
  let found := fetch_page conversationId before limit w in
  let hasMore := limit <? length found in
  (if hasMore then removelast found else found, hasMore).

Definition decryption_failed : JSString := js "[Message decryption failed]".

Definition decrypt_view (m : Message.t) : Message.t :=
  if Message.isEncrypted m then
    match decryptMessage (Message.content m) with
    | Returns text => Message.with_content text m
    | Throws _ => Message.with_content decryption_failed m
    end
  else Message.with_content (Message.content m) m.

Definition getMessages (userId conversationId : nat) (limit : option nat)
    (before : option Z) (w : World) : Response :=
  match findConversation conversationId (isParticipant userId) w with
  | None => json 403 (Error "Not authorized to view these messages")
  | Some _ =>
      let '(records, hasMore) :=
        page_records conversationId before
          (match limit with Some l => l | None => 50 end) w in
      json 200 (Messages (rev (List.map decrypt_view records)) hasMore)
  end.

(** [sendMessage].  [message.save()] (line 101) validates and writes
    the message; [conversation.save()] (line 109) validates the
    conversation, and when it rejects, the catch answers 500 after the
    message was written and before anything is emitted. *)
Definition sendMessage (senderId : nat) (client : Client)
    (conversationId recipientId : nat) (content : JSString) (now : Z)
    (w : World) : Response * World :=
  match findConversation conversationId
          (fun c => isParticipant senderId c && isParticipant recipientId c) w with
  | None =>
      (json 403 (Error "Not authorized to send message in this conversation"), w)
  | Some conversation =>
      let message :=
        {| Message._id := fresh (dom (messages w));
           Message.conversationId := conversationId;
           Message.sender := senderId;
           Message.recipient := recipientId;
           Message.content := content;
           Message.isEncrypted := true;
           Message.read := false;
           Message.metadata :=
             {| Message.timestamp := now;
                Message.ipAddress := ip client;
                Message.userAgent := user_agent client |};
           Message.createdAt := now;
           Message.updatedAt := now |} in
      if Message.validate message then
        let w1 :=
          with_messages (<[ Message._id message := message ]> (messages w)) w in
        match Conversation.save false now
                (Conversation.set_updatedAt now conversation)
                (conversations w1) with
        | Returns (_, cs) =>
            let w2 := with_conversations cs w1 in
            let sent := Message.with_content content message in
            let w3 := emit (ToUser recipientId) "new_message" (PMessage sent) w2 in
            (json 201 (SuccessWithMessage sent), w3)
        | Throws _ => (json 500 (Error "Failed to send message"), w1)
        end
      else (json 500 (Error "Failed to send message"), w)
  end.

Definition markAsRead (userId messageId : nat) (now : Z) (w : World)
  : Response * World :=
  match messages w !! messageId with
  | Some m =>
      if Message.recipient m =? userId then
        let message := Message.mark_read now m in
        let w1 := with_messages (<[ messageId := message ]> (messages w)) w in
        let w2 := emit (ToUser (Message.sender message)) "message_read"
                    (PMessageId messageId) w1 in
        (json 200 (SuccessWithMessage message), w2)
      else (json 404 (Error "Message not found"), w)
  | None => (json 404 (Error "Message not found"), w)
  end.

(** [deleteConversation].  The filter is [{ _id, $or: [{ participants:
    userId }, { createdBy: userId }] }]; [createdBy] is not a path of
    the schema and no document has it, so the second alternative
    selects nothing.  For a group, line 182 reads
    [conversation.admins], which the schema does not declare either:
    on the document it is undefined, [.includes] throws a TypeError,
    and the catch of line 209 answers 500 before anything is
    deleted. *)
Definition deleteConversation (userId conversationId : nat) (w : World)
  : Response * World :=
  match findConversation conversationId (isParticipant userId) w with
  | None =>
      (json 404
         (Error "Conversation not found or you do not have permission to delete it"),
       w)
  | Some conversation =>
      if Conversation.isGroup conversation
      then (json 500 (Error "Failed to delete conversation"), w)
      else
        let w1 := with_messages (Message.deleteMany conversationId (messages w)) w in
        let w2 := with_conversations (delete conversationId (conversations w1)) w1 in
        let notices :=
          List.map
            (fun participantId =>
               {| target := ToUser participantId;
                  event := "conversation_deleted";
                  payload := PConversationDeleted
                               (Conversation._id conversation) userId |})
            (List.filter (fun participantId => negb (participantId =? userId))
               (Conversation.participants conversation)) in
        (json 200
           (SuccessText "Conversation and all associated messages have been deleted"),
         emit_all notices w2)
  end.

(** [leaveGroup].  Once the group is found, line 236 reads
    [conversation.admins.length]; [admins] is not a path of the schema,
    so it is undefined on the document, the read throws a TypeError and
    the catch of line 299 answers 500.  Lines 239-298 (the guard of the
    only admin, the removal, the deletion of an emptied group) are
    never reached. *)
Definition leaveGroup (userId conversationId : nat) (w : World)
  : Response * World :=
  match findConversation conversationId (isGroupOf userId) w with
  | None =>
      (json 404 (Error "Group conversation not found or you are not a participant"),
       w)
  | Some _ => (json 500 (Error "Failed to leave group"), w)
  end.

(** [removeParticipantFromGroup].  After the check that the participant
    is in the group, line 330 reads [conversation.admins.includes]: a
    TypeError as in [leaveGroup], answered with 500 by the catch of
    line 400.  Lines 335-399 are never reached. *)
Definition removeParticipantFromGroup (currentUserId conversationId
    participantId : nat) (w : World) : Response * World :=
  match findConversation conversationId (isGroupOf currentUserId) w with
  | None => (json 404 (Error "Conversation not found or access denied"), w)
  | Some conversation =>
      if negb (JS.includes (Conversation.participants conversation) participantId)
      then (json 400 (Error "User is not a participant in this group"), w)
      else (json 500 (Error "Failed to remove participant from group"), w)
  end.

(** [addParticipantsToGroup] and [updateGroupConversation] look the
    group up with the filter [{ _id, isGroup: true, admins: userId }]
    (lines 416-420 and 488-492).  [admins] is not a path of the schema,
    which keeps the admins at [groupInfo.admins]: no document of the
    collection has a top-level [admins], the filter selects nothing,
    and both handlers answer 403 whatever the request.  The lines after
    the test [if (!conversation)] are never reached. *)
Definition addParticipantsToGroup (userId conversationId : nat)
    (members : list nat) (w : World) : Response * World :=
  (json 403 (Error "Not authorized to add participants to this group"), w).

Definition updateGroupConversation (userId conversationId : nat)
    (update : GroupUpdate) (w : World) : Response * World :=
  (json 403 (Error "Not authorized to update this group"), w).

(** The document built by [createGroupConversation].  [name],
    [createdBy] and [admins] are not paths of the schema and are
    dropped from the object given to the constructor; [groupInfo] and
    [metadata] keep their defaults. *)
Definition new_groupConversation (id creatorId : nat) (members : list nat)
    (now : Z) : Conversation.t :=
  {| Conversation._id := id;
     Conversation.participants := JS.spread_Set (members ++ [creatorId]);
     Conversation.isGroup := true;
     Conversation.groupInfo := Conversation.default_groupInfo;
     Conversation.lastMessage := None;
     Conversation.unreadCount := 0;
     Conversation.metadata :=
       {| Conversation.Metadata.createdBy := None;
          Conversation.Metadata.updatedAt := now |};
     Conversation.participantDetails := [];
     Conversation.tags := [];
     Conversation.updatedAt := now |}.

Definition createGroupConversation (creatorId : nat)
    (groupName : option JSString) (members : list nat) (now : Z) (w : World)
  : Response * World :=
  let allParticipants := JS.spread_Set (members ++ [creatorId]) in
  match Conversation.save true now
          (new_groupConversation (fresh (dom (conversations w))) creatorId
             members now)
          (conversations w) with
  | Returns (groupConversation, cs) =>
      let w1 := with_conversations cs w in
      let notices :=
        List.map
          (fun participantId =>
             {| target := ToUser participantId;
                event := "new_conversation";
                payload := PNewConversation groupConversation |})
          (List.filter (fun participantId => negb (participantId =? creatorId))
             allParticipants) in
      (json 201 (ConversationDoc groupConversation), emit_all notices w1)
  | Throws _ => (json 500 (Error "Failed to create group conversation"), w)
  end.

Definition deleteMessage (userId messageId : nat) (w : World)
  : Response * World :=
  match messages w !! messageId with
  | Some message =>
      if Message.sender message =? userId then
        let w1 := with_messages (delete messageId (messages w)) w in
        (json 200 Success,
         emit (ToUser (Message.recipient message)) "message_deleted"
           (PMessageId messageId) w1)
      else (json 404 (Error "Message not found"), w)
  | None => (json 404 (Error "Message not found"), w)
  end.

(** [.populate('participants', ...)]: the user documents of the
    participants, in order; an identifier without a user document is
    left out. *)
Definition populate (ids : list nat) (w : World) : list User.t :=
  omap (fun id => users w !! id) ids.

(** [conv.name || participants.filter(...).map(...).join(', ')]:
    [name] is not a path of the schema and is undefined on the
    document, so the name shown is always made of the names of the
    other participants. *)
Definition display_name (userId : nat) (participants : list User.t) : JSString :=
  JS.join_comma
    (List.map (fun p => User.firstName p ++ js " " ++ User.lastName p)
       (List.filter (fun p => negb (User._id p =? userId)) participants)).

(** [conv.lastMessage ? { ..., content: decryptMessage(...) } : null]. *)
Definition decrypt_last (last : option Conversation.LastMessage.t)
  : Result (option Conversation.LastMessage.t) :=
  match last with
  | None => Returns None
  | Some last =>
      match decryptMessage (Conversation.LastMessage.content last) with
      | Returns text =>
          Returns
            (Some
               {| Conversation.LastMessage.messageId :=
                    Conversation.LastMessage.messageId last;
                  Conversation.LastMessage.sender :=
                    Conversation.LastMessage.sender last;
                  Conversation.LastMessage.content := text;
                  Conversation.LastMessage.timestamp :=
                    Conversation.LastMessage.timestamp last |})
      | Throws reason => Throws reason
      end
  end.

(** [conv.unreadCount ? conv.unreadCount.get(userId) || 0 : 0]:
    [unreadCount] is a Number; when it is not zero, [.get] is not a
    function and the call throws a TypeError. *)
Definition unread_of (conv : Conversation.t) : Result nat :=
  match Conversation.unreadCount conv with
  | 0 => Returns 0
  | S _ => Throws "TypeError"
  end.

Definition getConversationById (userId conversationId : nat) (w : World)
  : Response :=
  match findConversation conversationId (isParticipant userId) w with
  | None => json 404 (Error "Conversation not found")
  | Some conversation =>
      let participants := populate (Conversation.participants conversation) w in
      match decrypt_last (Conversation.lastMessage conversation) with
      | Throws _ => json 500 (Error "Server error")
      | Returns last =>
          match unread_of conversation with
          | Throws _ => json 500 (Error "Server error")
          | Returns _ =>
              json 200
                (ConversationView (Conversation._id conversation)
                   (display_name userId participants) participants
                   (Conversation.isGroup conversation)
                   (option_map Conversation.LastMessage.content last))
          end
      end
  end.

(** *** [server/socket.js] *)

Definition on_send_message (socket : Socket) (data : SendData)
    (iv : list byte) (now : Z) (w : World) : World :=
  match data_content data, data_recipientId data, data_conversationId data with
  | Some ((_ :: _) as content), Some recipientId, Some conversationId =>
      match encryptMessage iv content with
      | Throws _ =>
          emit (ToSocket (socket_id socket)) "error"
            (PError "Failed to send message") w
      | Returns encryptedContent =>
          let message :=
            {| Message._id := fresh (dom (messages w));
               Message.conversationId := conversationId;
               Message.sender := socket_user socket;
               Message.recipient := recipientId;
               Message.content := encryptedContent;
               Message.isEncrypted := true;
               Message.read := false;
               Message.metadata :=
                 {| Message.timestamp := now;
                    Message.ipAddress := address socket;
                    Message.userAgent := socket_user_agent socket |};
               Message.createdAt := now;
               Message.updatedAt := now |} in
          let w1 :=
            with_messages (<[ Message._id message := message ]> (messages w)) w in
          let messageResponse := Message.with_content content message in
          let w2 := emit (ToUser recipientId) "receive_message"
                      (PMessage messageResponse) w1 in
          emit (ToSocket (socket_id socket)) "message_sent"
            (PMessage messageResponse) w2
      end
  | _, _, _ =>
      emit (ToSocket (socket_id socket)) "error"
        (PError "Missing required fields") w
  end.

Definition on_typing (socket : Socket) (recipientId : nat) (isTyping : bool)
    (w : World) : World :=
  emit (ToUser recipientId) "user_typing"
    (PTyping (socket_user socket) isTyping) w.

Definition on_message_read (socket : Socket) (messageId : nat) (now : Z)
    (w : World) : World :=
  match messages w !! messageId with
  | Some message =>
      if Message.recipient message =? socket_user socket then
        (* [save()] writes, and stamps [updatedAt], only when [read]
           was changed by the assignment; the validators of
           [MessageSchema] passed when the message was written and
           pass again *)
        let message :=
          if Message.read message then message
          else Message.mark_read now message in
        let w1 := with_messages (<[ messageId := message ]> (messages w)) w in
        emit (ToUser (Message.sender message)) "message_read"
          (PMessageId messageId) w1
      else w
  | None => w
  end.

(** *** Requests and runs of the server *)

Inductive Request : Type :=
| SendMessage (senderId : nat) (client : Client)
    (conversationId recipientId : nat) (content : JSString)
| MarkAsRead (userId messageId : nat)
| DeleteMessage (userId messageId : nat)
| DeleteConversation (userId conversationId : nat)
| LeaveGroup (userId conversationId : nat)
| RemoveParticipantFromGroup (currentUserId conversationId participantId : nat)
| AddParticipantsToGroup (userId conversationId : nat) (members : list nat)
| UpdateGroupConversation (userId conversationId : nat) (update : GroupUpdate)
| CreateGroupConversation (creatorId : nat) (groupName : option JSString)
    (members : list nat)
| OnSendMessage (socket : Socket) (data : SendData) (iv : list byte)
| OnTyping (socket : Socket) (recipientId : nat) (isTyping : bool)
| OnMessageRead (socket : Socket) (messageId : nat).

(** The world after the server has served [request] at time [now]. *)
Definition serve (request : Request) (now : Z) (w : World) : World :=
  match request with
  | SendMessage senderId client conversationId recipientId content =>
      snd (sendMessage senderId client conversationId recipientId content now w)
  | MarkAsRead userId messageId => snd (markAsRead userId messageId now w)
  | DeleteMessage userId messageId => snd (deleteMessage userId messageId w)
  | DeleteConversation userId conversationId =>
      snd (deleteConversation userId conversationId w)
  | LeaveGroup userId conversationId => snd (leaveGroup userId conversationId w)
  | RemoveParticipantFromGroup currentUserId conversationId participantId =>
      snd (removeParticipantFromGroup currentUserId conversationId participantId w)
  | AddParticipantsToGroup userId conversationId members =>
      snd (addParticipantsToGroup userId conversationId members w)
  | UpdateGroupConversation userId conversationId update =>
      snd (updateGroupConversation userId conversationId update w)
  | CreateGroupConversation creatorId groupName members =>
      snd (createGroupConversation creatorId groupName members now w)
  | OnSendMessage socket data iv => on_send_message socket data iv now w
  | OnTyping socket recipientId isTyping => on_typing socket recipientId isTyping w
  | OnMessageRead socket messageId => on_message_read socket messageId now w
  end.

Fixpoint run (trace : list (Request * Z)) (w : World) : World :=
  match trace with
  | [] => w
  | (request, now) :: rest => run rest (serve request now w)
  end.


(** *** [getConversations] of the controller *)

(** [.sort({ updatedAt: -1 })]: stable insertion, most recently updated
    first. *)
Fixpoint insert_updated_desc (c : Conversation.t)
    (sorted : list Conversation.t) : list Conversation.t :=
  match sorted with
  | [] => [c]
  | x :: rest =>
      if (Conversation.updatedAt c <? Conversation.updatedAt x)%Z
      then x :: insert_updated_desc c rest
      else c :: x :: rest
  end.

Definition sort_updatedAt_desc (l : list Conversation.t) : list Conversation.t :=
  List.fold_right insert_updated_desc [] l.

(** An item of the answer of [getConversations]. *)
Record ConversationSummary : Type := {
  summary_id : nat;
  summary_name : JSString;
  summary_participants : list User.t;
  summary_isGroup : bool;
  summary_lastMessage : option Conversation.LastMessage.t;
  summary_unreadCount : nat;
  summary_updatedAt : Z
}.

(** The function mapped over the conversations found; [decryptMessage]
    and the read of [unreadCount] may throw. *)
Definition summarize (userId : nat) (w : World) (conv : Conversation.t)
  : Result ConversationSummary :=
  let participants := populate (Conversation.participants conv) w in
  match decrypt_last (Conversation.lastMessage conv) with
  | Throws reason => Throws reason
  | Returns last =>
      match unread_of conv with
      | Throws reason => Throws reason
      | Returns unread =>
          Returns
            {| summary_id := Conversation._id conv;
               summary_name := display_name userId participants;
               summary_participants := participants;
               summary_isGroup := Conversation.isGroup conv;
               summary_lastMessage := last;
               summary_unreadCount := unread;
               summary_updatedAt := Conversation.updatedAt conv |}
      end
  end.

Fixpoint summarize_all (userId : nat) (w : World) (found : list Conversation.t)
  : Result (list ConversationSummary) :=
  match found with
  | [] => Returns []
  | conv :: rest =>
      match summarize userId w conv with
      | Throws reason => Throws reason
      | Returns item =>
          match summarize_all userId w rest with
          | Throws reason => Throws reason
          | Returns items => Returns (item :: items)
          end
      end
  end.

(** The status and the body of the answer: the list, or the error text. *)
Definition getConversations (userId : nat) (w : World)
  : nat * Result (list ConversationSummary) :=
  let conversations :=
    sort_updatedAt_desc
      (List.filter (isParticipant userId)
         (List.map snd (map_to_list (conversations w)))) in
  match summarize_all userId w conversations with
  | Returns formattedConversations => (200, Returns formattedConversations)
  | Throws _ => (500, Throws "Server error")
  end.

(** *** [server/utils/encryption.js] *)

(** [process.env.ENCRYPTION_KEY || 'default-...']; [env] is the variable
    of the environment. *)
Definition encryption_key (env : option JSString) : JSString :=
  match env with
  | Some ((_ :: _) as key) => key
  | _ => js "default-encryption-key-32-characters-long"
  end.

(** [text.padEnd(n, '0')] and [text.slice(0, n)], counted in code
    units. *)
Definition padEnd (n : nat) (fill : CodeUnit) (text : JSString) : JSString :=
  text ++ repeat fill (n - length text).

Definition slice_0 (n : nat) (text : JSString) : JSString := firstn n text.

(** [Buffer.from(ENCRYPTION_KEY.padEnd(32, '0').slice(0, 32))]. *)
Definition key_buffer (env : option JSString) : list byte :=
  Buffer.from_string (slice_0 32 (padEnd 32 48%N (encryption_key env))).

Definition encrypt (env : option JSString) (iv : list byte) (text : JSString)
  : Result JSString :=
  match text with
  | [] => Returns text
  | _ :: _ =>
      let key := key_buffer env in
      if valid_key_iv key iv then
        let encrypted := cipher_update_final key iv (Buffer.from_string text) in
        Returns (Buffer.toString_hex iv ++ JS.colon :: Buffer.toString_hex encrypted)
      else Throws "Failed to encrypt data"
  end.

(** [decrypt] catches whatever is thrown and then returns its
    argument.  [decipher.update(encrypted, 'hex', 'utf8')] refuses a
    hexadecimal text of odd length. *)
Definition decrypt (env : option JSString) (encryptedText : JSString) : JSString :=
  match encryptedText with
  | [] => encryptedText
  | _ :: _ =>
      match JS.split_colon encryptedText with
      | ((_ :: _) as ivHex) :: ((_ :: _) as encrypted) :: _ =>
          let iv := Buffer.from_hex ivHex in
          let key := key_buffer env in
          if valid_key_iv key iv && Nat.even (length encrypted) then
            match decipher_update_final key iv (Buffer.from_hex encrypted) with
            | Some decrypted => Buffer.toString decrypted
            | None => encryptedText
            end
          else encryptedText
      | _ => encryptedText
      end
  end.

(** *** Worlds used in the examples

    The stores of the examples are given as they are written in the
    database: no handler can write a conversation that has a
    participant, so the conversations of an example are documents put
    into the collection directly. *)

Definition example_client : Client :=
  {| ip := Some (js "10.0.0.7"); user_agent := Some (js "curl") |}.

Definition example_socket (userId : nat) : Socket :=
  {| socket_id := 40 + userId; socket_user := userId;
     address := Some (js "10.0.0.7"); socket_user_agent := Some (js "browser") |}.

Definition example_users : gmap nat User.t :=
  <[ 1 := {| User._id := 1; User.firstName := js "Ada";
             User.lastName := js "Lovelace"; User.email := js "ada@example.org" |} ]>
    (<[ 2 := {| User._id := 2; User.firstName := js "Alan";
                User.lastName := js "Turing"; User.email := js "alan@example.org" |} ]>
       (<[ 3 := {| User._id := 3; User.firstName := js "Grace";
                   User.lastName := js "Hopper";
                   User.email := js "grace@example.org" |} ]> ∅)).

(** A stored message of the conversation 0. *)
Definition example_message (id sender recipient : nat) (text : JSString)
    (at_ : Z) : Message.t :=
  {| Message._id := id; Message.conversationId := 0; Message.sender := sender;
     Message.recipient := recipient; Message.content := text;
     Message.isEncrypted := true; Message.read := false;
     Message.metadata :=
       {| Message.timestamp := at_; Message.ipAddress := None;
          Message.userAgent := None |};
     Message.createdAt := at_; Message.updatedAt := at_ |}.

(** The store holds the group 0 of users 1, 2 and 3, whose only admin
    is user 1 (the document that [createGroup] builds for user 1), and
    no message. *)
Definition example_group : World :=
  {| conversations :=
       {[ 0 := Conversation.new_group 0 1 (Some (js "team")) [2; 3]
                 Conversation.Options.none 100 ]};
     messages := ∅;
     users := example_users;
     outbox := [] |}.

(** The store holds the group 0 whose only participant and admin is
    user 1, and one message of that group. *)
Definition example_solo : World :=
  {| conversations :=
       {[ 0 := Conversation.new_group 0 1 (Some (js "solo")) []
                 Conversation.Options.none 100 ]};
     messages := {[ 0 := example_message 0 1 1 (js "note") 200 ]};
     users := example_users;
     outbox := [] |}.

(** The store holds the direct conversation 0 of users 1 and 2 (the
    document that [findOrCreateDirect] builds) and two of its
    messages. *)
Definition example_direct : World :=
  {| conversations := {[ 0 := Conversation.new_direct 0 1 2 100 ]};
     messages :=
       <[ 1 := example_message 1 2 1 (js "pong") 300 ]>
         {[ 0 := example_message 0 1 2 (js "ping") 200 ]};
     users := example_users;
     outbox := [] |}.

(** In the group 0, user 1 has sent "hello" to user 2 over HTTP at time
    200: the message is stored, although the request failed. *)
Definition example_chat : World :=
  snd (sendMessage 1 example_client 0 2 (js "hello") 200 example_group).



(** The group 0 with two stored messages: the content of the first is the
    envelope of "hello" under [example_key] and [example_iv], the content
    of the second is not an envelope. *)
Definition example_damaged : World :=
  with_messages
    (<[ 1 := example_message 1 1 2 (js "not an envelope") 300 ]>
       {[ 0 := example_message 0 1 2
                 (js "a0a1a2a3a4a5a6a7a8a9aaabacadaeaf:c8c5cccccfababababababababababab")
                 200 ]})
    example_group.

(** [example_group] in which the group 0 records, as its last message,
    a content that is not an envelope. *)
Definition example_last_message : World :=
  let c :=
    Conversation.new_group 0 1 (Some (js "team")) [2; 3]
      Conversation.Options.none 100 in
  with_conversations
    {[ 0 := {| Conversation._id := Conversation._id c;
               Conversation.participants := Conversation.participants c;
               Conversation.isGroup := Conversation.isGroup c;
               Conversation.groupInfo := Conversation.groupInfo c;
               Conversation.lastMessage :=
                 Some {| Conversation.LastMessage.messageId := 7;
                         Conversation.LastMessage.sender := 1;
                         Conversation.LastMessage.content := js "hello";
                         Conversation.LastMessage.timestamp := 200 |};
               Conversation.unreadCount := Conversation.unreadCount c;
               Conversation.metadata := Conversation.metadata c;
               Conversation.participantDetails :=
                 Conversation.participantDetails c;
               Conversation.tags := Conversation.tags c;
               Conversation.updatedAt := Conversation.updatedAt c |} ]}
    example_group.



(** *** Predicates of the statements *)

(** A text without the delimiter of the envelope. *)
Definition no_colon (text : JSString) : bool :=
  forallb (fun c => negb (c =? JS.colon)%N) text.

(** The admins of a group, as the schema keeps them. *)
Definition admins_of (c : Conversation.t) : list nat :=
  Conversation.GroupInfo.admins (Conversation.groupInfo c).




(** [m] is a stored message of the conversation, older than the
    cursor when there is one. *)
Definition stored_before (conversationId : nat) (before : option Z)
    (w : World) (m : Message.t) : Prop :=
  (exists k, messages w !! k = Some m)
  /\ Message.conversationId m = conversationId
  /\ match before with
     | Some cursor => (Message.createdAt m < cursor)%Z
     | None => True
     end.


(** Orders on messages by creation time. *)
Definition not_older (a b : Message.t) : Prop :=
  (Message.createdAt b <= Message.createdAt a)%Z.





(** No stored conversation holds both users. *)
Definition no_conversation_between (userA userB : nat) (w : World) : Prop :=
  forall k c, conversations w !! k = Some c ->
              ~ (In userA (Conversation.participants c)
                 /\ In userB (Conversation.participants c)).



(** Every stored message sits under its own [_id] and is flagged as
    encrypted. *)
Definition messages_ok (ms : gmap nat Message.t) : Prop :=
  forall k m, ms !! k = Some m ->
              Message._id m = k /\ Message.isEncrypted m = true.

(** A text of ASCII characters, each of which is one byte of its
    encoding. *)
Definition one_byte_chars (text : JSString) : Prop :=
  List.Forall (fun c => (c < 128)%N) text.

(** *** UTF-8: decoding undoes encoding *)

Lemma N_ascii (n : N) : (n < 256)%N -> N_of_ascii (ascii_of_N n) = n.
Proof. apply N_ascii_embedding. Qed.

Lemma div64 (p : N) : (p = 64 * (p / 64) + p mod 64 /\ p mod 64 < 64)%N.
Proof. split; [apply N.div_mod' | apply N.mod_lt; discriminate]. Qed.

(** The three six-bit groups below the leading bits of a code point. *)
Lemma sextets (p : N) :
  exists a b c d,
    (p / 262144 = a /\ (p / 4096) mod 64 = b /\ (p / 64) mod 64 = c
     /\ p mod 64 = d /\ p / 4096 = 64 * a + b /\ p / 64 = 4096 * a + 64 * b + c
     /\ p = 262144 * a + 4096 * b + 64 * c + d
     /\ b < 64 /\ c < 64 /\ d < 64)%N.
Proof.
  change 262144%N with (64 * 64 * 64)%N. change 4096%N with (64 * 64)%N.
  rewrite <- !N.Div0.div_div.
  destruct (div64 p) as [H1 L1], (div64 (p / 64)) as [H2 L2],
    (div64 (p / 64 / 64)) as [H3 L3].
  set (q3 := (p / 64 / 64 / 64)%N) in *.
  set (r3 := ((p / 64 / 64) mod 64)%N) in *.
  set (q2 := (p / 64 / 64)%N) in *.
  set (r2 := ((p / 64) mod 64)%N) in *.
  set (q1 := (p / 64)%N) in *.
  set (r1 := (p mod 64)%N) in *.
  clearbody q3 r3 q2 r2 q1 r1.
  exists q3, r3, r2, r1. repeat split; lia.
Qed.

Ltac decide_tests :=
  repeat match goal with
         | |- context [(?x <=? ?y)%N] => destruct (N.leb_spec x y); try lia
         | |- context [(?x <? ?y)%N] => destruct (N.ltb_spec x y); try lia
         | |- context [(?x =? ?y)%N] => destruct (N.eqb_spec x y); try lia
         end.

Lemma decode_encode_point (p : N) (rest : list byte) :
  Utf8.scalar p ->
  Utf8.decode_from None (Utf8.encode_point p ++ rest)
  = Utf8.units p ++ Utf8.decode_from None rest.
Proof.
  intros Hp. unfold Utf8.scalar in Hp.
  destruct (sextets p) as (a & b & c & d & Ea & Eb & Ec & Ed & Eab & Eabc & E
                           & Lb & Lc & Ld).
  unfold Utf8.encode_point.
  rewrite Ea, Eb, Ec, Ed.
  replace (p / 64)%N with (4096 * a + 64 * b + c)%N.
  replace (p / 4096)%N with (64 * a + b)%N.
  clear Ea Eb Ec Ed Eab Eabc.
  destruct (N.ltb_spec p 0x80) as [H1|H1];
    [|destruct (N.ltb_spec p 0x800) as [H2|H2];
      [|destruct (N.ltb_spec p 0x10000) as [H3|H3]]];
    cbn [app Utf8.decode_from];
    rewrite ?N_ascii by lia;
    unfold Utf8.start, Utf8.units, Utf8.replacement;
    decide_tests;
    cbn [andb app Utf8.decode_from Utf8.needed Utf8.point Utf8.lower Utf8.upper];
    rewrite ?N_ascii by lia;
    decide_tests;
    cbn [andb app Utf8.decode_from Utf8.needed Utf8.point Utf8.lower Utf8.upper];
    rewrite ?N_ascii by lia;
    decide_tests.
  all: try (f_equal; lia).
  all: match goal with
       | |- context [(?e - 65536)%N] =>
           replace e with p by lia
       end; reflexivity.
Qed.

Lemma is_lead_true (c : CodeUnit) :
  Utf8.is_lead c = true <-> (0xD800 <= c <= 0xDBFF)%N.
Proof.
  unfold Utf8.is_lead. rewrite andb_true_iff, !N.leb_le. tauto.
Qed.

Lemma is_trail_true (c : CodeUnit) :
  Utf8.is_trail c = true <-> (0xDC00 <= c <= 0xDFFF)%N.
Proof.
  unfold Utf8.is_trail. rewrite andb_true_iff, !N.leb_le. tauto.
Qed.

Lemma is_lead_false (c : CodeUnit) :
  Utf8.is_lead c = false <-> (c < 0xD800 \/ 0xDBFF < c)%N.
Proof.
  unfold Utf8.is_lead. rewrite andb_false_iff, !N.leb_gt. tauto.
Qed.

Lemma is_trail_false (c : CodeUnit) :
  Utf8.is_trail c = false <-> (c < 0xDC00 \/ 0xDFFF < c)%N.
Proof.
  unfold Utf8.is_trail. rewrite andb_false_iff, !N.leb_gt. tauto.
Qed.

Lemma units_pair_point (lead trail : CodeUnit) :
  Utf8.is_lead lead = true -> Utf8.is_trail trail = true ->
  Utf8.scalar (Utf8.pair_point lead trail)
  /\ Utf8.units (Utf8.pair_point lead trail) = [lead; trail].
Proof.
  intros Hl Ht. apply is_lead_true in Hl. apply is_trail_true in Ht.
  unfold Utf8.pair_point, Utf8.units, Utf8.scalar.
  set (x := (lead - 0xD800)%N). set (y := (trail - 0xDC00)%N).
  assert (Hx : (lead = 0xD800 + x)%N) by (unfold x; lia).
  assert (Hy : (trail = 0xDC00 + y)%N) by (unfold y; lia).
  assert (Lx : (x < 0x400)%N) by (unfold x; lia).
  assert (Ly : (y < 0x400)%N) by (unfold y; lia).
  clearbody x y. subst lead trail. split; [right; lia|].
  replace (0x10000 + x * 0x400 + y <? 0x10000)%N with false
    by (symmetry; apply N.ltb_ge; lia).
  replace (0x10000 + x * 0x400 + y - 0x10000)%N with (y + x * 0x400)%N by lia.
  rewrite N.div_add, N.Div0.mod_add by discriminate.
  rewrite N.div_small, N.mod_small by exact Ly. reflexivity.
Qed.

(** Decoding the encoding of a well-formed string gives the string
    back. *)
Lemma decode_encode_bounded (n : nat) (text : JSString) :
  length text <= n -> Utf8.well_formed text = true ->
  Utf8.decode (Utf8.encode text) = text.
Proof.
  unfold Utf8.decode. revert text.
  induction n as [|n IH]; intros [|c rest] Hlen Hwf; simpl in Hlen;
    try reflexivity; try lia.
  cbn [Utf8.encode Utf8.well_formed] in *.
  destruct (Utf8.is_lead c) eqn:Hlead.
  - destruct rest as [|d rest']; [discriminate|].
    apply andb_prop in Hwf as [Htrail Hwf]. rewrite Htrail.
    destruct (units_pair_point c d Hlead Htrail) as [Hscalar Hunits].
    rewrite (decode_encode_point _ _ Hscalar), Hunits.
    simpl in Hlen. rewrite IH by (assumption || lia). reflexivity.
  - apply andb_prop in Hwf as [Hc Hwf]. apply andb_prop in Hc as [Htrail Hc].
    apply negb_true_iff in Htrail. rewrite Htrail.
    apply N.ltb_lt in Hc.
    apply is_lead_false in Hlead. apply is_trail_false in Htrail.
    rewrite decode_encode_point by (unfold Utf8.scalar; lia).
    unfold Utf8.units. replace (c <? 0x10000)%N with true
      by (symmetry; apply N.ltb_lt; exact Hc).
    cbn [app]. rewrite IH by (assumption || lia). reflexivity.
Qed.

Lemma decode_encode (text : JSString) :
  Utf8.well_formed text = true -> Utf8.decode (Utf8.encode text) = text.
Proof. apply (decode_encode_bounded (length text)). reflexivity. Qed.
(** *** Buffers: xor and hexadecimal text *)

Lemma xor_byte_involutive (a b : byte) :
  Buffer.xor_byte (Buffer.xor_byte a b) b = a.
Proof.
  destruct a as [a0 a1 a2 a3 a4 a5 a6 a7], b as [b0 b1 b2 b3 b4 b5 b6 b7].
  simpl. f_equal; rewrite xorb_assoc, xorb_nilpotent; apply xorb_false_r.
Qed.

Lemma length_xor (x y : list byte) :
  length (Buffer.xor x y) = Nat.min (length x) (length y).
Proof.
  revert y. induction x as [|a x IH]; intros [|b y]; simpl; auto.
Qed.

Lemma xor_involutive (x y : list byte) :
  length x = length y -> Buffer.xor (Buffer.xor x y) y = x.
Proof.
  revert y. induction x as [|a x IH]; intros [|b y] Hlen; simpl in *;
    try discriminate; auto.
  rewrite xor_byte_involutive, IH by lia. reflexivity.
Qed.

Lemma hex_value_digit (n : N) :
  (n < 16)%N -> Buffer.hex_value (Buffer.hex_digit n) = Some n.
Proof.
  intros Hn. unfold Buffer.hex_digit, Buffer.hex_value.
  destruct (N.ltb_spec n 10); decide_tests; cbn [andb]; f_equal; lia.
Qed.

Lemma hex_digit_not_colon (n : N) :
  (Buffer.hex_digit n =? JS.colon)%N = false.
Proof.
  unfold Buffer.hex_digit, JS.colon. apply N.eqb_neq.
  destruct (N.ltb_spec n 10); lia.
Qed.

Lemma byte_nibbles (b : byte) :
  (N_of_ascii b / 16 < 16 /\ N_of_ascii b mod 16 < 16
   /\ 16 * (N_of_ascii b / 16) + N_of_ascii b mod 16 = N_of_ascii b)%N.
Proof.
  pose proof (N_ascii_bounded b) as Hb.
  pose proof (N.div_mod' (N_of_ascii b) 16) as Hd.
  pose proof (N.mod_lt (N_of_ascii b) 16 ltac:(discriminate)) as Hm.
  set (q := (N_of_ascii b / 16)%N) in *.
  set (r := (N_of_ascii b mod 16)%N) in *.
  clearbody q r. lia.
Qed.

Lemma from_hex_toString_hex (buf : list byte) :
  Buffer.from_hex (Buffer.toString_hex buf) = buf.
Proof.
  induction buf as [|b rest IH]; [reflexivity|].
  cbn [Buffer.toString_hex Buffer.from_hex].
  destruct (byte_nibbles b) as (Hhi & Hlo & Hsum).
  rewrite (hex_value_digit _ Hhi), (hex_value_digit _ Hlo), IH, Hsum.
  rewrite ascii_N_embedding. reflexivity.
Qed.

Lemma no_colon_toString_hex (buf : list byte) :
  no_colon (Buffer.toString_hex buf) = true.
Proof.
  unfold no_colon.
  induction buf as [|b rest IH]; cbn [Buffer.toString_hex forallb];
    [reflexivity|].
  rewrite !hex_digit_not_colon, IH. reflexivity.
Qed.

Lemma split_colon_single (text : JSString) :
  no_colon text = true -> JS.split_colon text = [text].
Proof.
  unfold no_colon.
  induction text as [|c rest IH]; cbn [forallb JS.split_colon]; [reflexivity|].
  intros H. apply andb_prop in H as [Hc Hrest].
  apply negb_true_iff in Hc. rewrite Hc, (IH Hrest). reflexivity.
Qed.

Lemma split_colon_envelope (first second : JSString) :
  no_colon first = true -> no_colon second = true ->
  JS.split_colon (first ++ JS.colon :: second) = [first; second].
Proof.
  unfold no_colon. intros Hfirst Hsecond.
  induction first as [|c rest IH]; cbn [app forallb JS.split_colon] in *.
  - rewrite N.eqb_refl, (split_colon_single _ Hsecond). reflexivity.
  - apply andb_prop in Hfirst as [Hc Hrest].
    apply negb_true_iff in Hc. rewrite Hc, (IH Hrest). reflexivity.
Qed.

(** *** Padding *)

Lemma pad_amount (n : nat) : 1 <= BLOCK - n mod BLOCK <= BLOCK.
Proof.
  unfold BLOCK. pose proof (Nat.mod_upper_bound n 16). lia.
Qed.

Lemma length_pad (data : list byte) :
  length (Pkcs7.pad data) = BLOCK * (length data / BLOCK + 1).
Proof.
  unfold Pkcs7.pad. rewrite length_app, repeat_length.
  pose proof (pad_amount (length data)) as Hn.
  pose proof (Nat.div_mod_eq (length data) BLOCK) as Hdm.
  unfold BLOCK in *. lia.
Qed.

Lemma forallb_repeat (c : byte) (n : nat) :
  forallb (Ascii.eqb c) (repeat c n) = true.
Proof.
  induction n as [|n IH]; simpl; [reflexivity|].
  rewrite Ascii.eqb_refl, IH. reflexivity.
Qed.

Lemma rev_repeat (c : byte) (n : nat) : rev (repeat c n) = repeat c n.
Proof.
  induction n as [|n IH]; simpl; [reflexivity|].
  rewrite IH. clear IH. induction n as [|n IH]; simpl; [reflexivity|].
  rewrite IH. reflexivity.
Qed.

Lemma unpad_pad (data : list byte) :
  Pkcs7.unpad (Pkcs7.pad data) = Some data.
Proof.
  unfold Pkcs7.pad, Pkcs7.unpad.
  pose proof (pad_amount (length data)) as Hn.
  set (n := BLOCK - length data mod BLOCK) in *.
  rewrite rev_app_distr, rev_repeat.
  destruct n as [|k] eqn:Hk; [lia|]. simpl repeat at 1. cbn [app].
  rewrite <- Hk in *. clear Hk k.
  assert (Hc : nat_of_ascii (ascii_of_nat n) = n)
    by (apply nat_ascii_embedding; unfold BLOCK in *; lia).
  rewrite Hc, length_app, repeat_length.
  replace (length data + n - n) with (length data) by lia.
  rewrite skipn_app, skipn_all, Nat.sub_diag, firstn_app, firstn_all,
    Nat.sub_diag.
  rewrite skipn_O, firstn_O, app_nil_r. cbn [app]. rewrite forallb_repeat.
  replace (1 <=? n) with true by (symmetry; apply Nat.leb_le; lia).
  replace (n <=? BLOCK) with true by (symmetry; apply Nat.leb_le; lia).
  replace (n <=? length data + n) with true by (symmetry; apply Nat.leb_le; lia).
  reflexivity.
Qed.

(** *** The cipher *)

Lemma length_cbc_encrypt (key : list byte) (n : nat) :
  length key = KEY_LENGTH ->
  forall prev data, length prev = BLOCK -> length data = BLOCK * n ->
  length (cbc_encrypt key n prev data) = BLOCK * n.
Proof.
  intros Hkey. induction n as [|n IH]; intros prev data Hprev Hdata; simpl.
  - lia.
  - assert (Hblock : length (Buffer.xor (firstn BLOCK data) prev) = BLOCK)
      by (rewrite length_xor, length_firstn; unfold BLOCK in *; lia).
    rewrite length_app, aes256_block_length by assumption.
    rewrite IH; [unfold BLOCK; lia | apply aes256_block_length; assumption |].
    rewrite length_skipn. unfold BLOCK in *. lia.
Qed.

Lemma cbc_decrypt_encrypt (key : list byte) (n : nat) :
  length key = KEY_LENGTH ->
  forall prev data, length prev = BLOCK -> length data = BLOCK * n ->
  cbc_decrypt key n prev (cbc_encrypt key n prev data) = data.
Proof.
  intros Hkey. induction n as [|n IH]; intros prev data Hprev Hdata; simpl.
  - destruct data; [reflexivity | simpl in Hdata; lia].
  - assert (Hfirst : length (firstn BLOCK data) = BLOCK)
      by (rewrite length_firstn; unfold BLOCK in *; lia).
    assert (Hblock : length (Buffer.xor (firstn BLOCK data) prev) = BLOCK)
      by (rewrite length_xor; lia).
    set (c := aes256_encrypt_block key (Buffer.xor (firstn BLOCK data) prev)).
    assert (Hc : length c = BLOCK) by (apply aes256_block_length; assumption).
    assert (Hf : forall rest, firstn BLOCK (c ++ rest) = c)
      by (intros rest; rewrite <- Hc; apply take_app_length).
    assert (Hs : forall rest, skipn BLOCK (c ++ rest) = rest)
      by (intros rest; rewrite <- Hc; apply drop_app_length).
    rewrite !Hf, Hs. unfold c at 1.
    rewrite aes256_decrypt_encrypt by assumption.
    rewrite xor_involutive by lia.
    rewrite IH; [apply firstn_skipn | exact Hc |].
    rewrite length_skipn. unfold BLOCK in *. lia.
Qed.

Lemma decipher_cipher (key iv data : list byte) :
  length key = KEY_LENGTH -> length iv = IV_LENGTH ->
  decipher_update_final key iv (cipher_update_final key iv data) = Some data.
Proof.
  intros Hkey Hiv. unfold decipher_update_final, cipher_update_final.
  pose proof (length_pad data) as Hpad.
  set (n := length data / BLOCK + 1) in *.
  assert (Hdiv : length (Pkcs7.pad data) / BLOCK = n)
    by (rewrite Hpad, Nat.mul_comm; apply Nat.div_mul; discriminate).
  rewrite Hdiv.
  assert (Hlen : length (cbc_encrypt key n iv (Pkcs7.pad data)) = BLOCK * n)
    by (apply length_cbc_encrypt; assumption).
  rewrite Hlen.
  replace (BLOCK * n =? 0) with false
    by (symmetry; apply Nat.eqb_neq; unfold BLOCK, n; lia).
  replace (BLOCK * n mod BLOCK) with 0
    by (symmetry; rewrite Nat.mul_comm; apply Nat.Div0.mod_mul).
  replace (BLOCK * n / BLOCK) with n
    by (symmetry; rewrite Nat.mul_comm; apply Nat.div_mul; discriminate).
  simpl. rewrite cbc_decrypt_encrypt by assumption. apply unpad_pad.
Qed.

Lemma valid_key_iv_true (key iv : list byte) :
  length key = KEY_LENGTH -> length iv = IV_LENGTH -> valid_key_iv key iv = true.
Proof.
  intros Hkey Hiv. unfold valid_key_iv. rewrite Hkey, Hiv. reflexivity.
Qed.

(** An envelope always holds the delimiter. *)
Lemma encryptMessage_has_colon (iv : list byte) (text envelope : JSString) :
  encryptMessage iv text = Returns envelope -> no_colon envelope = false.
Proof.
  unfold encryptMessage, no_colon. destruct (valid_key_iv _ _); [|discriminate].
  intros [= <-]. rewrite forallb_app. cbn [forallb].
  rewrite N.eqb_refl. cbn [negb andb]. apply andb_false_r.
Qed.

(** *** Lists of identifiers *)

Lemma includes_In (l : list nat) (x : nat) :
  JS.includes l x = true <-> In x l.
Proof.
  unfold JS.includes. rewrite existsb_exists. split.
  - intros (y & Hy & Heq). apply Nat.eqb_eq in Heq. subst. exact Hy.
  - intros Hx. exists x. split; [exact Hx | apply Nat.eqb_refl].
Qed.

Lemma includes_not_In (l : list nat) (x : nat) :
  JS.includes l x = false <-> ~ In x l.
Proof.
  rewrite <- includes_In. destruct (JS.includes l x); split; intros H;
    try discriminate; try reflexivity; try (intros H'; discriminate).
  exfalso. apply H. reflexivity.
Qed.

Lemma set_add_all_In (items seen : list nat) (x : nat) :
  In x (JS.set_add_all seen items) <-> In x seen \/ In x items.
Proof.
  revert seen. induction items as [|y rest IH]; intros seen; simpl.
  - tauto.
  - destruct (JS.includes seen y) eqn:Hy; rewrite IH.
    + apply includes_In in Hy. split; [tauto|].
      intros [H | [<- | H]]; auto.
    + rewrite in_app_iff. simpl. tauto.
Qed.

Lemma set_add_all_NoDup (items seen : list nat) :
  List.NoDup seen -> List.NoDup (JS.set_add_all seen items).
Proof.
  revert seen. induction items as [|y rest IH]; intros seen Hseen; simpl.
  - exact Hseen.
  - destruct (JS.includes seen y) eqn:Hy; apply IH; [exact Hseen|].
    apply includes_not_In in Hy.
    apply List.NoDup_app; [exact Hseen | repeat constructor; intros [] |].
    intros z Hz [<- | []]. exact (Hy Hz).
Qed.

Lemma spread_Set_In (items : list nat) (x : nat) :
  In x (JS.spread_Set items) <-> In x items.
Proof. unfold JS.spread_Set. rewrite set_add_all_In. simpl. tauto. Qed.

Lemma spread_Set_NoDup (items : list nat) : List.NoDup (JS.spread_Set items).
Proof. apply set_add_all_NoDup. constructor. Qed.
(** *** Stored conversations *)

Lemma findConversation_Some (conversationId : nat)
    (query : Conversation.t -> bool) (w : World) (c : Conversation.t) :
  findConversation conversationId query w = Some c <->
  conversations w !! conversationId = Some c /\ query c = true.
Proof.
  unfold findConversation.
  destruct (conversations w !! conversationId) as [c'|]; [|split; [discriminate | intros [? _]; discriminate]].
  destruct (query c') eqn:Hq; split.
  - intros [= <-]. auto.
  - intros [[= <-] _]. reflexivity.
  - discriminate.
  - intros [[= <-] Hq']. congruence.
Qed.


Lemma findConversation_found (conversationId : nat)
    (query : Conversation.t -> bool) (w : World) (c : Conversation.t) :
  conversations w !! conversationId = Some c -> query c = true ->
  findConversation conversationId query w = Some c.
Proof. intros Hlook Hq. apply findConversation_Some. auto. Qed.


Lemma In_values {A : Type} (m : gmap nat A) (x : A) :
  In x (List.map snd (map_to_list m)) <-> exists k, m !! k = Some x.
Proof.
  rewrite in_map_iff. split.
  - intros ([k y] & Heq & Hin). cbn in Heq. subst y. exists k.
    apply elem_of_map_to_list, list_elem_of_In. exact Hin.
  - intros (k & Hk). exists (k, x). split; [reflexivity|].
    apply list_elem_of_In, elem_of_map_to_list. exact Hk.
Qed.

Lemma findOne_ext (q1 q2 : Conversation.t -> bool)
    (cs : gmap nat Conversation.t) :
  (forall c, q1 c = q2 c) -> Conversation.findOne q1 cs = Conversation.findOne q2 cs.
Proof.
  intros Hext. unfold Conversation.findOne.
  induction (List.map snd (map_to_list cs)) as [|c rest IH]; cbn; [reflexivity|].
  rewrite Hext, IH. reflexivity.
Qed.

Lemma direct_query_sym (user1Id user2Id : nat) (c : Conversation.t) :
  Conversation.direct_query user1Id user2Id c
  = Conversation.direct_query user2Id user1Id c.
Proof.
  unfold Conversation.direct_query.
  destruct (negb (Conversation.isGroup c)),
    (JS.includes (Conversation.participants c) user1Id),
    (JS.includes (Conversation.participants c) user2Id); reflexivity.
Qed.

Lemma fresh_not_stored {A : Type} (m : gmap nat A) : m !! fresh (dom m) = None.
Proof. apply not_elem_of_dom, is_fresh. Qed.

(** *** Read receipts *)







(** *** Sending *)

Lemma sendMessage_no_conversation (senderId : nat) (client : Client)
    (conversationId recipientId : nat) (content : JSString) (now : Z)
    (w : World) :
  (forall c, conversations w !! conversationId = Some c ->
             ~ (In senderId (Conversation.participants c)
                /\ In recipientId (Conversation.participants c))) ->
  sendMessage senderId client conversationId recipientId content now w
  = (json 403 (Error "Not authorized to send message in this conversation"), w).
Proof.
  intros Hnone. unfold sendMessage.
  destruct (findConversation conversationId _ w) as [c|] eqn:Hfind;
    [|reflexivity].
  apply findConversation_Some in Hfind as [Hlook Hq].
  apply andb_prop in Hq as [Hs Hr]. unfold isParticipant in Hs, Hr.
  apply includes_In in Hs, Hr. destruct (Hnone c Hlook). auto.
Qed.


(** What the [send_message] handler does with a complete payload. *)
Lemma on_send_message_stored (socket : Socket) (conversationId recipientId : nat)
    (content : JSString) (iv : list byte) (now : Z) (w : World)
    (envelope : JSString) :
  content <> [] ->
  encryptMessage iv content = Returns envelope ->
  let data := {| data_conversationId := Some conversationId;
                 data_recipientId := Some recipientId;
                 data_content := Some content |} in
  let w' := on_send_message socket data iv now w in
  exists m,
    messages w' = <[ Message._id m := m ]> (messages w)
    /\ messages w !! Message._id m = None
    /\ Message.content m = envelope
    /\ Message.isEncrypted m = true
    /\ Message.sender m = socket_user socket
    /\ Message.recipient m = recipientId
    /\ Message.conversationId m = conversationId
    /\ conversations w' = conversations w
    /\ outbox w'
       = outbox w
           ++ [ {| target := ToUser recipientId; event := "receive_message";
                   payload := PMessage (Message.with_content content m) |};
                {| target := ToSocket (socket_id socket);
                   event := "message_sent";
                   payload := PMessage (Message.with_content content m) |} ].
Proof.
  intros Hne Henc data w'. unfold w', on_send_message, data.
  cbn [data_content data_recipientId data_conversationId].
  destruct content as [|ch rest]; [congruence|].
  rewrite Henc. unfold emit, emit_all, with_messages.
  cbn [messages conversations outbox]. eexists.
  split; [reflexivity|]. cbn [Message._id Message.content Message.isEncrypted
                               Message.sender Message.recipient
                               Message.conversationId].
  split; [apply fresh_not_stored|]. rewrite <- app_assoc. repeat split.
Qed.

(** *** Pages: the sorted query *)

Lemma insert_desc_Permutation (m : Message.t) (l : list Message.t) :
  Permutation (Message.insert_desc m l) (m :: l).
Proof.
  induction l as [|x rest IH]; cbn; [reflexivity|].
  destruct (Message.createdAt m <? Message.createdAt x)%Z; [|reflexivity].
  rewrite IH. apply perm_swap.
Qed.

Lemma sort_Permutation (l : list Message.t) :
  Permutation (Message.sort_createdAt_desc l) l.
Proof.
  induction l as [|x rest IH]; cbn; [reflexivity|].
  rewrite insert_desc_Permutation, IH. reflexivity.
Qed.

Lemma insert_desc_sorted (m : Message.t) (l : list Message.t) :
  StronglySorted not_older l -> StronglySorted not_older (Message.insert_desc m l).
Proof.
  induction 1 as [|x rest Hrest IH Hx]; cbn.
  - repeat constructor.
  - destruct (Message.createdAt m <? Message.createdAt x)%Z eqn:Hcmp.
    + apply Z.ltb_lt in Hcmp. constructor; [exact IH|].
      apply List.Forall_forall. intros y Hy.
      apply (Permutation_in _ (insert_desc_Permutation m rest)) in Hy.
      destruct Hy as [<- | Hy]; [unfold not_older; lia|].
      rewrite List.Forall_forall in Hx. exact (Hx y Hy).
    + apply Z.ltb_ge in Hcmp. constructor; [constructor; assumption|].
      constructor; [exact Hcmp|].
      rewrite List.Forall_forall in Hx. apply List.Forall_forall.
      intros y Hy. specialize (Hx y Hy). unfold not_older in *. lia.
Qed.

Lemma sort_sorted (l : list Message.t) :
  StronglySorted not_older (Message.sort_createdAt_desc l).
Proof.
  induction l as [|x rest IH]; cbn; [constructor|].
  apply insert_desc_sorted, IH.
Qed.

Lemma page_query_true (conversationId : nat) (before : option Z)
    (m : Message.t) :
  page_query conversationId before m = true <->
  Message.conversationId m = conversationId
  /\ match before with
     | Some cursor => (Message.createdAt m < cursor)%Z
     | None => True
     end.
Proof.
  unfold page_query. rewrite andb_true_iff, Nat.eqb_eq.
  destruct before as [cursor|]; [rewrite Z.ltb_lt|]; tauto.
Qed.

Lemma In_find (conversationId : nat) (before : option Z) (w : World)
    (m : Message.t) :
  In m (Message.find (page_query conversationId before) (messages w)) <->
  stored_before conversationId before w m.
Proof.
  unfold Message.find, stored_before.
  rewrite filter_In, In_values, page_query_true. tauto.
Qed.

Lemma In_find_sorted (conversationId : nat) (before : option Z) (w : World)
    (m : Message.t) :
  In m (find_sorted conversationId before w) <->
  stored_before conversationId before w m.
Proof.
  rewrite <- In_find. unfold find_sorted. split; apply Permutation_in.
  - apply sort_Permutation.
  - symmetry. apply sort_Permutation.
Qed.


(** The records of a page are the first [limit] of the sorted query,
    and [hasMore] tells whether the query holds more than [limit]. *)
Lemma page_records_eq (conversationId : nat) (before : option Z)
    (limit : nat) (w : World) :
  page_records conversationId before limit w
  = (firstn limit (find_sorted conversationId before w),
     limit <? length (find_sorted conversationId before w)).
Proof.
  unfold page_records, fetch_page.
  set (sorted := find_sorted conversationId before w).
  rewrite length_firstn.
  destruct (limit <? length sorted) eqn:Hmore.
  - apply Nat.ltb_lt in Hmore.
    replace (limit <? Nat.min (limit + 1) (length sorted)) with true
      by (symmetry; apply Nat.ltb_lt; lia).
    rewrite Nat.add_1_r, removelast_firstn by exact Hmore. reflexivity.
  - apply Nat.ltb_ge in Hmore.
    replace (limit <? Nat.min (limit + 1) (length sorted)) with false
      by (symmetry; apply Nat.ltb_ge; lia).
    rewrite !firstn_all2 by lia. reflexivity.
Qed.

(** *** Pages: decryption of the records *)

Lemma decrypt_view_fields (m : Message.t) :
  Message.createdAt (decrypt_view m) = Message.createdAt m
  /\ Message._id (decrypt_view m) = Message._id m
  /\ Message.conversationId (decrypt_view m) = Message.conversationId m
  /\ decrypt_view m = Message.with_content (Message.content (decrypt_view m)) m.
Proof.
  unfold decrypt_view. destruct (Message.isEncrypted m);
    [destruct (decryptMessage (Message.content m))|]; cbn; auto.
Qed.

Lemma decrypt_view_content (m : Message.t) :
  (Message.isEncrypted m = true ->
   (forall text, decryptMessage (Message.content m) = Returns text ->
                 Message.content (decrypt_view m) = text)
   /\ (forall reason, decryptMessage (Message.content m) = Throws reason ->
                      Message.content (decrypt_view m) = decryption_failed))
  /\ (Message.isEncrypted m = false ->
      Message.content (decrypt_view m) = Message.content m).
Proof.
  unfold decrypt_view. destruct (Message.isEncrypted m); split;
    try discriminate; intros _.
  - destruct (decryptMessage (Message.content m)); split; intros ? [= <-];
      reflexivity.
  - reflexivity.
Qed.

Lemma getMessages_participant (userId conversationId : nat)
    (limit : option nat) (before : option Z) (w : World) (c : Conversation.t) :
  conversations w !! conversationId = Some c ->
  In userId (Conversation.participants c) ->
  let l := match limit with Some l => l | None => 50 end in
  getMessages userId conversationId limit before w
  = json 200
      (Messages
         (rev (List.map decrypt_view
                 (firstn l (find_sorted conversationId before w))))
         (l <? length (find_sorted conversationId before w))).
Proof.
  intros Hlook Hin l. unfold getMessages.
  rewrite (findConversation_found _ _ _ c Hlook)
    by (apply includes_In; exact Hin).
  fold l. rewrite page_records_eq. reflexivity.
Qed.

(** *** Pages: distinct creation times *)









(** *** Pages: following the cursors *)


(** *** Pages: order and [hasMore] *)

Lemma In_firstn {A : Type} (n : nat) (l : list A) (x : A) :
  In x (firstn n l) -> In x l.
Proof.
  intros Hx. rewrite <- (firstn_skipn n l). apply in_or_app. left. exact Hx.
Qed.






(** *** Pages: the whole conversation *)



Lemma Forall2_map_view (R : Message.t -> Message.t -> Prop)
    (l : list Message.t) :
  (forall m, R m (decrypt_view m)) ->
  List.Forall2 R l (List.map decrypt_view l).
Proof. intros HR. induction l as [|m rest IH]; cbn; constructor; auto. Qed.

Lemma encryptMessage_returns (iv : list byte) (text : JSString) :
  length (Buffer.from_hex ENCRYPTION_KEY) = KEY_LENGTH ->
  length iv = IV_LENGTH ->
  exists envelope, encryptMessage iv text = Returns envelope.
Proof.
  intros Hkey Hiv. unfold encryptMessage.
  rewrite (valid_key_iv_true _ _ Hkey Hiv). eexists. reflexivity.
Qed.

(** *** Saving a conversation *)

Lemma validate_with_participant (c : Conversation.t) :
  Conversation.participants c <> [] -> Conversation.validate c = false.
Proof.
  unfold Conversation.validate.
  destruct (Conversation.participants c) as [|p rest]; [congruence|].
  reflexivity.
Qed.

Lemma save_with_participant (isNew : bool) (now : Z) (c : Conversation.t)
    (collection : gmap nat Conversation.t) :
  Conversation.participants c <> [] ->
  Conversation.save isNew now c collection = Throws "ValidationError".
Proof.
  intros Hne. unfold Conversation.save.
  rewrite (validate_with_participant c Hne). reflexivity.
Qed.

Lemma In_not_nil {A : Type} (x : A) (l : list A) : In x l -> l <> [].
Proof. intros Hin ->. exact Hin. Qed.

Lemma createGroupConversation_rejected (creatorId : nat)
    (groupName : option JSString) (members : list nat) (now : Z) (w : World) :
  createGroupConversation creatorId groupName members now w
  = (json 500 (Error "Failed to create group conversation"), w).
Proof.
  unfold createGroupConversation. rewrite save_with_participant; [reflexivity|].
  apply (In_not_nil creatorId). cbn [new_groupConversation Conversation.participants].
  apply spread_Set_In, in_app_iff. right. left. reflexivity.
Qed.

Lemma createGroup_rejected (creatorId : nat) (groupName : option JSString)
    (members : list nat) (options : Conversation.Options.t) (now : Z)
    (collection : gmap nat Conversation.t) :
  Conversation.createGroup creatorId groupName members options now collection
  = Throws "ValidationError".
Proof.
  unfold Conversation.createGroup. apply save_with_participant.
  apply (In_not_nil creatorId).
  cbn [Conversation.new_group Conversation.participants].
  apply spread_Set_In. left. reflexivity.
Qed.

(** What [sendMessage] does when the conversation is found: the
    message is written, the conversation is refused, and the answer is
    500. *)
Lemma sendMessage_result (senderId : nat) (client : Client)
    (conversationId recipientId : nat) (content : JSString) (now : Z)
    (w : World) (c : Conversation.t) :
  conversations w !! conversationId = Some c ->
  In senderId (Conversation.participants c) ->
  In recipientId (Conversation.participants c) ->
  content <> [] ->
  sendMessage senderId client conversationId recipientId content now w
  = (json 500 (Error "Failed to send message"),
     with_messages
       (<[ fresh (dom (messages w)) :=
             {| Message._id := fresh (dom (messages w));
                Message.conversationId := conversationId;
                Message.sender := senderId;
                Message.recipient := recipientId;
                Message.content := content;
                Message.isEncrypted := true;
                Message.read := false;
                Message.metadata :=
                  {| Message.timestamp := now;
                     Message.ipAddress := ip client;
                     Message.userAgent := user_agent client |};
                Message.createdAt := now;
                Message.updatedAt := now |} ]> (messages w)) w).
Proof.
  intros Hlook Hs Hr Hne. unfold sendMessage.
  rewrite (findConversation_found _ _ _ c Hlook)
    by (unfold isParticipant; rewrite !(proj2 (includes_In _ _)); auto).
  unfold Message.validate. cbn [Message.content Message._id].
  destruct content as [|ch rest]; [congruence|]. cbn [length Nat.eqb negb].
  rewrite save_with_participant; [reflexivity|].
  cbn [Conversation.set_updatedAt Conversation.participants].
  apply (In_not_nil senderId). exact Hs.
Qed.

Lemma sendMessage_empty_content (senderId : nat) (client : Client)
    (conversationId recipientId : nat) (now : Z) (w : World)
    (c : Conversation.t) :
  conversations w !! conversationId = Some c ->
  In senderId (Conversation.participants c) ->
  In recipientId (Conversation.participants c) ->
  sendMessage senderId client conversationId recipientId [] now w
  = (json 500 (Error "Failed to send message"), w).
Proof.
  intros Hlook Hs Hr. unfold sendMessage.
  rewrite (findConversation_found _ _ _ c Hlook)
    by (unfold isParticipant; rewrite !(proj2 (includes_In _ _)); auto).
  reflexivity.
Qed.

(** [sendMessage] never writes a conversation. *)
Lemma sendMessage_conversations (senderId : nat) (client : Client)
    (conversationId recipientId : nat) (content : JSString) (now : Z)
    (w : World) :
  conversations
    (snd (sendMessage senderId client conversationId recipientId content now w))
  = conversations w.
Proof.
  unfold sendMessage.
  destruct (findConversation conversationId _ w) as [c|] eqn:Hfind;
    [|reflexivity].
  apply findConversation_Some in Hfind as [Hlook Hq].
  apply andb_prop in Hq as [Hs _]. apply includes_In in Hs.
  destruct (Message.validate _); [|reflexivity].
  rewrite save_with_participant; [reflexivity|].
  cbn [Conversation.set_updatedAt Conversation.participants].
  apply (In_not_nil senderId). exact Hs.
Qed.

(** *** What the handlers leave of the conversations *)

Lemma leaveGroup_found (userId conversationId : nat) (w : World)
    (c : Conversation.t) :
  conversations w !! conversationId = Some c ->
  Conversation.isGroup c = true -> In userId (Conversation.participants c) ->
  leaveGroup userId conversationId w
  = (json 500 (Error "Failed to leave group"), w).
Proof.
  intros Hlook Hg Hin. unfold leaveGroup.
  rewrite (findConversation_found _ _ _ c Hlook); [reflexivity|].
  unfold isGroupOf. rewrite Hg. apply includes_In. exact Hin.
Qed.

Lemma removeParticipantFromGroup_found (currentUserId conversationId
    participantId : nat) (w : World) (c : Conversation.t) :
  conversations w !! conversationId = Some c ->
  Conversation.isGroup c = true ->
  In currentUserId (Conversation.participants c) ->
  In participantId (Conversation.participants c) ->
  removeParticipantFromGroup currentUserId conversationId participantId w
  = (json 500 (Error "Failed to remove participant from group"), w).
Proof.
  intros Hlook Hg Hin Hp. unfold removeParticipantFromGroup.
  rewrite (findConversation_found _ _ _ c Hlook)
    by (unfold isGroupOf; rewrite Hg; apply includes_In; exact Hin).
  rewrite (proj2 (includes_In _ _) Hp). reflexivity.
Qed.

Lemma leaveGroup_world (userId conversationId : nat) (w : World) :
  snd (leaveGroup userId conversationId w) = w.
Proof.
  unfold leaveGroup. destruct (findConversation _ _ _); reflexivity.
Qed.

Lemma removeParticipantFromGroup_world (currentUserId conversationId
    participantId : nat) (w : World) :
  snd (removeParticipantFromGroup currentUserId conversationId participantId w)
  = w.
Proof.
  unfold removeParticipantFromGroup.
  destruct (findConversation _ _ _); [|reflexivity].
  destruct (negb _); reflexivity.
Qed.

(** What [deleteConversation] leaves of the conversations: all of
    them, or all but a direct conversation of the caller. *)
Lemma deleteConversation_conversations (userId conversationId : nat)
    (w : World) :
  conversations (snd (deleteConversation userId conversationId w))
  = conversations w
  \/ (exists c, conversations w !! conversationId = Some c
                /\ Conversation.isGroup c = false
                /\ In userId (Conversation.participants c))
     /\ conversations (snd (deleteConversation userId conversationId w))
        = delete conversationId (conversations w).
Proof.
  unfold deleteConversation.
  destruct (findConversation conversationId _ w) as [c|] eqn:Hfind;
    [|left; reflexivity].
  apply findConversation_Some in Hfind as [Hlook Hq].
  apply includes_In in Hq.
  destruct (Conversation.isGroup c) eqn:Hg; [left; reflexivity|].
  right. split; [exists c; auto | reflexivity].
Qed.

(** No handler writes a conversation: a conversation stored after a
    request was stored, the same, before it; and a stored group is
    still there. *)
Lemma serve_conversations (request : Request) (now : Z) (w : World) :
  (forall k c, conversations (serve request now w) !! k = Some c ->
               conversations w !! k = Some c)
  /\ (forall k c, conversations w !! k = Some c ->
                  Conversation.isGroup c = true ->
                  conversations (serve request now w) !! k = Some c).
Proof.
  assert (Hsame : forall cs : gmap nat Conversation.t,
             cs = conversations w ->
             (forall k c, cs !! k = Some c -> conversations w !! k = Some c)
             /\ (forall k c, conversations w !! k = Some c ->
                             Conversation.isGroup c = true ->
                             cs !! k = Some c))
    by (intros cs ->; auto).
  destruct request; cbn [serve].
  - apply Hsame. apply sendMessage_conversations.
  - apply Hsame. unfold markAsRead.
    destruct (messages w !! messageId) as [m|]; [|reflexivity].
    destruct (Message.recipient m =? userId); reflexivity.
  - apply Hsame. unfold deleteMessage.
    destruct (messages w !! messageId) as [m|]; [|reflexivity].
    destruct (Message.sender m =? userId); reflexivity.
  - destruct (deleteConversation_conversations userId conversationId w)
      as [Heq | [(d & Hd & Hdirect & _) Heq]]; [apply Hsame; exact Heq|].
    rewrite Heq. split.
    + intros k c Hk. apply lookup_delete_Some in Hk as [_ Hk]. exact Hk.
    + intros k c Hk Hg. apply lookup_delete_Some. split; [|exact Hk].
      intros <-. congruence.
  - apply Hsame. rewrite leaveGroup_world. reflexivity.
  - apply Hsame. rewrite removeParticipantFromGroup_world. reflexivity.
  - apply Hsame. reflexivity.
  - apply Hsame. reflexivity.
  - apply Hsame. rewrite createGroupConversation_rejected. reflexivity.
  - apply Hsame. unfold on_send_message.
    destruct (data_content data) as [[|ch rest]|]; try reflexivity.
    destruct (data_recipientId data); try reflexivity.
    destruct (data_conversationId data); try reflexivity.
    destruct (encryptMessage iv (ch :: rest)); reflexivity.
  - apply Hsame. reflexivity.
  - apply Hsame. unfold on_message_read.
    destruct (messages w !! messageId) as [m|]; [|reflexivity].
    destruct (Message.recipient m =? socket_user socket); reflexivity.
Qed.

Lemma run_conversations (trace : list (Request * Z)) (w : World) :
  (forall k c, conversations (run trace w) !! k = Some c ->
               conversations w !! k = Some c)
  /\ (forall k c, conversations w !! k = Some c ->
                  Conversation.isGroup c = true ->
                  conversations (run trace w) !! k = Some c).
Proof.
  revert w. induction trace as [|[request now] rest IH]; intros w; cbn [run].
  - auto.
  - destruct (IH (serve request now w)) as [Hback Hkeep].
    destruct (serve_conversations request now w) as [Hback1 Hkeep1].
    split; intros k c Hk; auto.
Qed.

Lemma getConversationById_absent (reader conversationId : nat) (w : World) :
  conversations w !! conversationId = None ->
  getConversationById reader conversationId w
  = json 404 (Error "Conversation not found").
Proof.
  intros Hnone. unfold getConversationById, findConversation.
  rewrite Hnone. reflexivity.
Qed.

Lemma getConversationById_found (userId conversationId : nat) (w : World)
    (c : Conversation.t) :
  conversations w !! conversationId = Some c ->
  In userId (Conversation.participants c) ->
  status (getConversationById userId conversationId w) = 200
  \/ status (getConversationById userId conversationId w) = 500.
Proof.
  intros Hlook Hin. unfold getConversationById.
  rewrite (findConversation_found _ _ _ c Hlook)
    by (apply includes_In; exact Hin).
  destruct (decrypt_last _); [|right; reflexivity].
  destruct (unread_of c); [left | right]; reflexivity.
Qed.

(** *** The claims *)

(** C5, as amended.  Decrypting what [encryptMessage] returned gives
    back the plaintext when the plaintext is a well-formed string (one
    without a surrogate outside a pair): with a 32-byte key and
    whatever 16-byte initialization vector was drawn, [encryptMessage]
    returns an envelope and [decryptMessage] of that envelope returns
    the plaintext. *)
Theorem decryptMessage_encryptMessage (iv : list byte) (plaintext : JSString) :
  Utf8.well_formed plaintext = true ->
  length (Buffer.from_hex ENCRYPTION_KEY) = KEY_LENGTH ->
  length iv = IV_LENGTH ->
  exists envelope,
    encryptMessage iv plaintext = Returns envelope
    /\ decryptMessage envelope = Returns plaintext.
Proof.
  intros Hwf Hkey Hiv. unfold encryptMessage.
  rewrite (valid_key_iv_true _ _ Hkey Hiv).
  eexists. split; [reflexivity|]. unfold decryptMessage.
  rewrite split_colon_envelope by apply no_colon_toString_hex.
  cbn [JS.join_colon]. rewrite !from_hex_toString_hex.
  rewrite (valid_key_iv_true _ _ Hkey Hiv).
  rewrite decipher_cipher by assumption.
  unfold Buffer.toString, Buffer.from_string.
  rewrite (decode_encode _ Hwf). reflexivity.
Qed.

(** C9.  What [findOrCreateDirect] does for two users.  When no direct
    conversation of the two is stored, the conversation it builds is
    refused by the validators of the schema: the call rejects, in
    either order of the arguments, and nothing is stored, so that no
    later call can find a conversation.  When one is stored, the call
    returns it, the same in either order, and leaves the collection as
    it was. *)
Theorem findOrCreateDirect_twice (userA userB : nat) (now later : Z)
    (collection : gmap nat Conversation.t) :
  (Conversation.findOne (Conversation.direct_query userA userB) collection
   = None ->
   Conversation.findOrCreateDirect userA userB now collection
   = Throws "ValidationError"
   /\ Conversation.findOrCreateDirect userA userB later collection
      = Throws "ValidationError"
   /\ Conversation.findOrCreateDirect userB userA later collection
      = Throws "ValidationError")
  /\ (forall c,
        Conversation.findOne (Conversation.direct_query userA userB) collection
        = Some c ->
        Conversation.findOrCreateDirect userA userB now collection
        = Returns (c, collection)
        /\ Conversation.findOrCreateDirect userA userB later collection
           = Returns (c, collection)
        /\ Conversation.findOrCreateDirect userB userA later collection
           = Returns (c, collection)).
Proof.
  assert (Hsym : Conversation.findOne
                   (Conversation.direct_query userB userA) collection
                 = Conversation.findOne
                     (Conversation.direct_query userA userB) collection)
    by (apply findOne_ext; intros c'; apply direct_query_sym).
  unfold Conversation.findOrCreateDirect. rewrite Hsym. split.
  - intros ->. repeat split; apply save_with_participant; discriminate.
  - intros c ->. auto.
Qed.

(** C10.  Every group creation is refused.  [createGroupConversation]
    answers 500 and [createGroup] rejects, whatever their arguments,
    and nothing is stored.  The documents they build and fail to save
    do hold the creator and the given members without repetition; the
    admins of the document of [createGroup] are exactly the creator,
    while the document of the controller has no admin, for the
    [admins] it is given is not a path of the schema. *)
Theorem group_creation_is_refused (creatorId : nat)
    (groupName : option JSString) (members : list nat)
    (options : Conversation.Options.t) (now : Z) (w : World)
    (collection : gmap nat Conversation.t) (id : nat) :
  createGroupConversation creatorId groupName members now w
  = (json 500 (Error "Failed to create group conversation"), w)
  /\ Conversation.createGroup creatorId groupName members options now collection
     = Throws "ValidationError"
  /\ (let g := Conversation.new_group id creatorId groupName members options
                 now in
      (forall x, In x (Conversation.participants g) <->
                 x = creatorId \/ In x members)
      /\ List.NoDup (Conversation.participants g)
      /\ admins_of g = [creatorId])
  /\ (let g := new_groupConversation id creatorId members now in
      (forall x, In x (Conversation.participants g) <->
                 x = creatorId \/ In x members)
      /\ List.NoDup (Conversation.participants g)
      /\ admins_of g = []).
Proof.
  split; [apply createGroupConversation_rejected|].
  split; [apply createGroup_rejected|].
  cbv zeta. cbn [Conversation.new_group new_groupConversation
                   Conversation.participants]. unfold admins_of.
  cbn [Conversation.groupInfo Conversation.GroupInfo.admins
         Conversation.new_group new_groupConversation
         Conversation.default_groupInfo].
  repeat split; try apply spread_Set_NoDup.
  - rewrite spread_Set_In. cbn [In]. intuition.
  - rewrite spread_Set_In. cbn [In]. intuition.
  - rewrite spread_Set_In, in_app_iff. cbn [In]. intuition.
  - rewrite spread_Set_In, in_app_iff. cbn [In]. intuition.
Qed.


(** C3.  The last participant of a group cannot go.  When the only
    participant of a stored group leaves, or removes themselves, the
    request is answered 500 and nothing changes: the group and its
    messages are still stored, and reading the group by id does not
    answer 404. *)
Theorem last_participant_removal (userId conversationId : nat) (w : World)
    (c : Conversation.t) :
  conversations w !! conversationId = Some c ->
  Conversation.isGroup c = true ->
  Conversation.participants c = [userId] ->
  leaveGroup userId conversationId w
  = (json 500 (Error "Failed to leave group"), w)
  /\ removeParticipantFromGroup userId conversationId userId w
     = (json 500 (Error "Failed to remove participant from group"), w)
  /\ (status (getConversationById userId conversationId w) = 200
      \/ status (getConversationById userId conversationId w) = 500).
Proof.
  intros Hlook Hg Hparts.
  assert (Hin : In userId (Conversation.participants c))
    by (rewrite Hparts; left; reflexivity).
  split; [|split].
  - apply (leaveGroup_found _ _ _ c); assumption.
  - apply (removeParticipantFromGroup_found _ _ _ _ c); assumption.
  - apply (getConversationById_found _ _ _ c); assumption.
Qed.

(** C4, as amended.  When no stored conversation holds both the sender
    and the recipient, the HTTP send is refused with status 403 and
    changes nothing.  The [send_message] handler, given a conversation
    id, a recipient and a non-empty content (and a 32-byte key), stores
    the message under the conversation id it was given without creating
    or touching any conversation; the stored content is the envelope;
    the recipient's channel receives [receive_message] with the
    plaintext and the sending connection receives [message_sent]. *)
Theorem send_without_conversation (senderId recipientId conversationId : nat)
    (content : JSString) (client : Client) (socket : Socket) (iv : list byte)
    (now : Z) (w : World) :
  no_conversation_between senderId recipientId w ->
  sendMessage senderId client conversationId recipientId content now w
  = (json 403 (Error "Not authorized to send message in this conversation"), w)
  /\ (socket_user socket = senderId -> content <> [] ->
      length (Buffer.from_hex ENCRYPTION_KEY) = KEY_LENGTH ->
      length iv = IV_LENGTH ->
      let w' :=
        on_send_message socket
          {| data_conversationId := Some conversationId;
             data_recipientId := Some recipientId;
             data_content := Some content |} iv now w in
      conversations w' = conversations w
      /\ exists m,
           messages w' = <[ Message._id m := m ]> (messages w)
           /\ messages w !! Message._id m = None
           /\ encryptMessage iv content = Returns (Message.content m)
           /\ Message.sender m = senderId
           /\ Message.recipient m = recipientId
           /\ Message.conversationId m = conversationId
           /\ outbox w'
              = outbox w
                  ++ [ {| target := ToUser recipientId;
                          event := "receive_message";
                          payload := PMessage (Message.with_content content m) |};
                       {| target := ToSocket (socket_id socket);
                          event := "message_sent";
                          payload := PMessage (Message.with_content content m) |} ]).
Proof.
  intros Hnone. split.
  - apply sendMessage_no_conversation. intros c Hlook. exact (Hnone _ _ Hlook).
  - intros Huser Hcontent Hkey Hiv w'.
    destruct (encryptMessage_returns iv content Hkey Hiv) as [envelope Henc].
    destruct (on_send_message_stored socket conversationId recipientId content
                iv now w envelope Hcontent Henc)
      as (m & Hm & Hfresh & Hcont & _ & Hs & Hr & Hc & Hcs & Hout).
    split; [exact Hcs|]. exists m. rewrite Hcont, <- Huser.
    repeat split; assumption.
Qed.


(** C7.  A page fetch by a participant always succeeds with the whole
    page, whatever decryption does: each record of the page appears, in
    order, with all its fields; the content of a record whose
    decryption fails is the marker, the content of a record whose
    decryption succeeds is the decrypted text. *)
Theorem page_survives_decryption_failure (userId conversationId : nat)
    (limit : option nat) (before : option Z) (w : World) (c : Conversation.t) :
  conversations w !! conversationId = Some c ->
  In userId (Conversation.participants c) ->
  exists page hasMore,
    getMessages userId conversationId limit before w
    = json 200 (Messages page hasMore)
    /\ List.Forall2
         (fun m v =>
            v = Message.with_content (Message.content v) m
            /\ (Message.isEncrypted m = true ->
                (forall text,
                    decryptMessage (Message.content m) = Returns text ->
                    Message.content v = text)
                /\ (forall reason,
                       decryptMessage (Message.content m) = Throws reason ->
                       Message.content v = decryption_failed))
            /\ (Message.isEncrypted m = false ->
                Message.content v = Message.content m))
         (rev (fst (page_records conversationId before
                      (match limit with Some l => l | None => 50 end) w)))
         page.
Proof.
  intros Hlook Hin.
  rewrite (getMessages_participant _ _ _ _ _ c Hlook Hin), page_records_eq.
  cbv zeta. cbn [fst]. eexists. eexists. split; [reflexivity|].
  rewrite <- map_rev. apply Forall2_map_view. intros m.
  destruct (decrypt_view_fields m) as (_ & _ & _ & Hsame).
  destruct (decrypt_view_content m) as [Henc Hplain]. auto.
Qed.

(** *** More on the envelope *)

Lemma length_toString_hex (buf : list byte) :
  length (Buffer.toString_hex buf) = 2 * length buf.
Proof.
  induction buf as [|b rest IH]; cbn [Buffer.toString_hex length];
    [reflexivity | rewrite IH; lia].
Qed.

(** Decoding hexadecimal text stops at a colon. *)
Lemma from_hex_until_colon (buf : list byte) (rest : JSString) :
  Buffer.from_hex (Buffer.toString_hex buf ++ JS.colon :: rest) = buf.
Proof.
  induction buf as [|b buf IH].
  - destruct rest; reflexivity.
  - cbn [Buffer.toString_hex app Buffer.from_hex].
    destruct (byte_nibbles b) as (Hhi & Hlo & Hsum).
    rewrite (hex_value_digit _ Hhi), (hex_value_digit _ Hlo), IH, Hsum.
    rewrite ascii_N_embedding. reflexivity.
Qed.

Lemma split_colon_app (first rest : JSString) :
  no_colon first = true ->
  JS.split_colon (first ++ JS.colon :: rest) = first :: JS.split_colon rest.
Proof.
  unfold no_colon. intros Hfirst. induction first as [|c first IH].
  - cbn [app JS.split_colon]. rewrite N.eqb_refl. reflexivity.
  - cbn [forallb] in Hfirst. apply andb_prop in Hfirst as [Hc Hfirst].
    apply negb_true_iff in Hc.
    cbn [app JS.split_colon]. rewrite Hc, (IH Hfirst). reflexivity.
Qed.

Lemma split_colon_not_nil (text : JSString) : JS.split_colon text <> [].
Proof.
  destruct text as [|c rest]; cbn [JS.split_colon]; [discriminate|].
  destruct (c =? JS.colon)%N; [discriminate|].
  destruct (JS.split_colon rest); discriminate.
Qed.

(** What [encryptMessage] returns, when it returns. *)
Lemma encryptMessage_Returns (iv : list byte) (text envelope : JSString) :
  encryptMessage iv text = Returns envelope ->
  length (Buffer.from_hex ENCRYPTION_KEY) = KEY_LENGTH
  /\ length iv = IV_LENGTH
  /\ envelope
     = Buffer.toString_hex iv
       ++ JS.colon
          :: Buffer.toString_hex
               (cipher_update_final (Buffer.from_hex ENCRYPTION_KEY) iv
                  (Buffer.from_string text)).
Proof.
  unfold encryptMessage, valid_key_iv.
  destruct (length (Buffer.from_hex ENCRYPTION_KEY) =? KEY_LENGTH) eqn:Hkey;
    [|discriminate].
  destruct (length iv =? IV_LENGTH) eqn:Hiv; [|discriminate].
  apply Nat.eqb_eq in Hkey, Hiv. intros [= <-]. auto.
Qed.

(** Decryption of an envelope followed by anything that starts a new
    part. *)
Lemma decryptMessage_envelope (iv data : list byte) (tail : JSString) :
  length (Buffer.from_hex ENCRYPTION_KEY) = KEY_LENGTH ->
  length iv = IV_LENGTH ->
  tail = [] \/ (exists junk, tail = JS.colon :: junk) ->
  decryptMessage
      (Buffer.toString_hex iv
       ++ JS.colon
          :: Buffer.toString_hex
               (cipher_update_final (Buffer.from_hex ENCRYPTION_KEY) iv data)
             ++ tail)
    = Returns (Buffer.toString data).
Proof.
  intros Hkey Hiv Htail. unfold decryptMessage.
  rewrite split_colon_app by apply no_colon_toString_hex.
  rewrite from_hex_toString_hex, (valid_key_iv_true _ _ Hkey Hiv).
  set (ct := cipher_update_final (Buffer.from_hex ENCRYPTION_KEY) iv data).
  assert (Hct : Buffer.from_hex
                  (JS.join_colon
                     (JS.split_colon (Buffer.toString_hex ct ++ tail)))
                = ct).
  { destruct Htail as [-> | [junk ->]].
    - rewrite app_nil_r.
      rewrite split_colon_single by apply no_colon_toString_hex.
      cbn [JS.join_colon]. apply from_hex_toString_hex.
    - rewrite split_colon_app by apply no_colon_toString_hex.
      destruct (JS.split_colon junk) as [|p ps] eqn:Hjunk;
        [destruct (split_colon_not_nil _ Hjunk)|].
      cbn [JS.join_colon]. apply from_hex_until_colon. }
  rewrite Hct. unfold ct. rewrite decipher_cipher by assumption. reflexivity.
Qed.

(** Decrypting an envelope gives the decoding of the bytes that were
    enciphered. *)
Lemma decryptMessage_of_encryptMessage (iv : list byte)
    (plaintext envelope : JSString) :
  encryptMessage iv plaintext = Returns envelope ->
  decryptMessage envelope
  = Returns (Buffer.toString (Buffer.from_string plaintext)).
Proof.
  intros Henc. apply encryptMessage_Returns in Henc as (Hkey & Hiv & ->).
  pose proof (decryptMessage_envelope iv (Buffer.from_string plaintext)
                [] Hkey Hiv (or_introl eq_refl)) as H.
  rewrite app_nil_r in H. exact H.
Qed.

Lemma decryptMessage_well_formed (iv : list byte)
    (plaintext envelope : JSString) :
  Utf8.well_formed plaintext = true ->
  encryptMessage iv plaintext = Returns envelope ->
  decryptMessage envelope = Returns plaintext.
Proof.
  intros Hwf Henc. rewrite (decryptMessage_of_encryptMessage _ _ _ Henc).
  unfold Buffer.toString, Buffer.from_string.
  rewrite (decode_encode _ Hwf). reflexivity.
Qed.

(** X1.  The shape of an envelope.  When [encryptMessage] returns, the
    envelope is the hexadecimal text of the initialization vector, a
    colon, and the hexadecimal text of a ciphertext of whole blocks that
    is longer than the bytes of the plaintext: 16 bytes for each
    started block of these bytes and one more block when they fill
    their last block.  Splitting the envelope at the colons gives
    exactly these two parts. *)
Theorem encryptMessage_envelope_shape (iv : list byte)
    (text envelope : JSString) :
  encryptMessage iv text = Returns envelope ->
  exists ciphertext,
    envelope
    = Buffer.toString_hex iv ++ JS.colon :: Buffer.toString_hex ciphertext
    /\ JS.split_colon envelope
       = [Buffer.toString_hex iv; Buffer.toString_hex ciphertext]
    /\ length ciphertext
       = BLOCK * (length (Buffer.from_string text) / BLOCK + 1)
    /\ length envelope
       = 2 * IV_LENGTH + 1
         + 2 * (BLOCK * (length (Buffer.from_string text) / BLOCK + 1)).
Proof.
  intros Henc. apply encryptMessage_Returns in Henc as (Hkey & Hiv & ->).
  set (data := Buffer.from_string text).
  exists (cipher_update_final (Buffer.from_hex ENCRYPTION_KEY) iv data).
  assert (Hlen : length (cipher_update_final (Buffer.from_hex ENCRYPTION_KEY)
                           iv data)
                 = BLOCK * (length data / BLOCK + 1)).
  { unfold cipher_update_final.
    pose proof (length_pad data) as Hpad.
    assert (Hdiv : length (Pkcs7.pad data) / BLOCK = length data / BLOCK + 1)
      by (rewrite Hpad, Nat.mul_comm; apply Nat.div_mul; discriminate).
    rewrite Hdiv, length_cbc_encrypt; try assumption. reflexivity. }
  split; [reflexivity|].
  split; [apply split_colon_envelope; apply no_colon_toString_hex|].
  split; [exact Hlen|].
  rewrite length_app. cbn [length].
  rewrite !length_toString_hex, Hlen, Hiv. lia.
Qed.

(** Without a second part there is no ciphertext to decipher. *)
Lemma decryptMessage_single_part (text first : JSString) :
  JS.split_colon text = [first] ->
  decryptMessage text = Throws "Failed to decrypt message".
Proof.
  intros Hsplit. unfold decryptMessage. rewrite Hsplit.
  cbn [JS.join_colon Buffer.from_hex].
  destruct (valid_key_iv _ _); reflexivity.
Qed.

(** X2.  [decryptMessage] throws on a text without a colon, the empty
    text included: the ciphertext part is then empty, and there is no
    final block to decipher. *)
Theorem decryptMessage_without_colon (text : JSString) :
  no_colon text = true ->
  decryptMessage text = Throws "Failed to decrypt message".
Proof.
  intros Hno. apply (decryptMessage_single_part text text).
  apply split_colon_single. exact Hno.
Qed.

(** X3.  [decryptMessage] reads the initialization vector before the
    first colon and the ciphertext up to the second: whatever follows
    an envelope after one more colon is ignored, and the text decrypts
    to what the envelope alone decrypts to, the decoding of the bytes
    that were enciphered, which is the plaintext when the plaintext is
    well formed. *)
Theorem decryptMessage_ignores_trailing_parts (iv : list byte)
    (plaintext envelope junk : JSString) :
  encryptMessage iv plaintext = Returns envelope ->
  decryptMessage (envelope ++ JS.colon :: junk) = decryptMessage envelope
  /\ decryptMessage (envelope ++ JS.colon :: junk)
     = Returns (Buffer.toString (Buffer.from_string plaintext))
  /\ (Utf8.well_formed plaintext = true ->
      decryptMessage (envelope ++ JS.colon :: junk) = Returns plaintext).
Proof.
  intros Henc.
  pose proof (decryptMessage_of_encryptMessage _ _ _ Henc) as Hdec.
  apply encryptMessage_Returns in Henc as (Hkey & Hiv & ->).
  assert (Htail : decryptMessage
                    ((Buffer.toString_hex iv
                      ++ JS.colon
                         :: Buffer.toString_hex
                              (cipher_update_final
                                 (Buffer.from_hex ENCRYPTION_KEY) iv
                                 (Buffer.from_string plaintext)))
                     ++ JS.colon :: junk)
                  = Returns (Buffer.toString (Buffer.from_string plaintext))).
  { rewrite <- app_assoc. cbn [app].
    apply (decryptMessage_envelope iv (Buffer.from_string plaintext) _ Hkey Hiv).
    right. eexists. reflexivity. }
  split; [rewrite Htail, Hdec; reflexivity|].
  split; [exact Htail|].
  intros Hwf. rewrite Htail. unfold Buffer.toString, Buffer.from_string.
  rewrite (decode_encode _ Hwf). reflexivity.
Qed.

(** X4.  An envelope determines its initialization vector and the
    bytes that were enciphered: two calls of [encryptMessage] that
    return the same envelope drew the same vector and were given texts
    with the same encoding, hence the same text when both texts are
    well formed. *)
Theorem encryptMessage_injective (iv1 iv2 : list byte)
    (text1 text2 envelope : JSString) :
  encryptMessage iv1 text1 = Returns envelope ->
  encryptMessage iv2 text2 = Returns envelope ->
  iv1 = iv2
  /\ Buffer.from_string text1 = Buffer.from_string text2
  /\ (Utf8.well_formed text1 = true -> Utf8.well_formed text2 = true ->
      text1 = text2).
Proof.
  intros H1 H2.
  apply encryptMessage_Returns in H1 as (Hkey & Hiv1 & E1).
  apply encryptMessage_Returns in H2 as (_ & Hiv2 & E2).
  rewrite E1 in E2. apply (f_equal JS.split_colon) in E2.
  rewrite !split_colon_envelope in E2 by apply no_colon_toString_hex.
  injection E2 as Eiv Ect.
  apply (f_equal Buffer.from_hex) in Eiv, Ect.
  rewrite !from_hex_toString_hex in Eiv, Ect. subst iv2.
  assert (Hbytes : Buffer.from_string text1 = Buffer.from_string text2).
  { apply (f_equal (decipher_update_final (Buffer.from_hex ENCRYPTION_KEY)
                      iv1)) in Ect.
    rewrite !decipher_cipher in Ect by assumption. congruence. }
  split; [reflexivity|]. split; [exact Hbytes|].
  intros W1 W2. apply (f_equal Buffer.toString) in Hbytes.
  unfold Buffer.toString, Buffer.from_string in Hbytes.
  rewrite (decode_encode _ W1), (decode_encode _ W2) in Hbytes. exact Hbytes.
Qed.

(** X5.  A key that does not decode to 32 bytes makes every call fail:
    [encryptMessage] throws whatever the text, and [decryptMessage]
    throws whatever it is given. *)
Theorem key_of_wrong_length_fails :
  length (Buffer.from_hex ENCRYPTION_KEY) <> KEY_LENGTH ->
  (forall iv text, encryptMessage iv text = Throws "Failed to encrypt message")
  /\ (forall text, decryptMessage text = Throws "Failed to decrypt message").
Proof.
  intros Hkey. apply Nat.eqb_neq in Hkey.
  split.
  - intros iv text. unfold encryptMessage, valid_key_iv. rewrite Hkey.
    reflexivity.
  - intros text. unfold decryptMessage, valid_key_iv. rewrite Hkey.
    destruct (JS.split_colon text); reflexivity.
Qed.

(** *** Deleting messages and conversations *)

(** X6.  Only its sender deletes a message.  When the caller sent the
    message, [deleteMessage] answers 200, the message is gone, every
    other message and every conversation is as before, and the
    recipient is told; otherwise (no such message, or a message sent by
    someone else) it answers 404 and nothing changes. *)
Theorem deleteMessage_sender_only (userId messageId : nat) (w : World) :
  let r := deleteMessage userId messageId w in
  (forall m, messages w !! messageId = Some m -> Message.sender m = userId ->
     fst r = json 200 Success
     /\ messages (snd r) !! messageId = None
     /\ (forall k, k <> messageId -> messages (snd r) !! k = messages w !! k)
     /\ conversations (snd r) = conversations w
     /\ outbox (snd r)
        = outbox w ++ [ {| target := ToUser (Message.recipient m);
                           event := "message_deleted";
                           payload := PMessageId messageId |} ])
  /\ ((forall m, messages w !! messageId = Some m -> Message.sender m <> userId) ->
      r = (json 404 (Error "Message not found"), w)).
Proof.
  intros r. unfold r, deleteMessage. split.
  - intros m Hlook Hsender. rewrite Hlook, Hsender, Nat.eqb_refl. cbn.
    split; [reflexivity|]. split; [apply lookup_delete_eq|].
    split; [|auto]. intros k Hk. apply lookup_delete_ne. congruence.
  - intros Hother. destruct (messages w !! messageId) as [m|]; [|reflexivity].
    specialize (Hother m eq_refl). apply Nat.eqb_neq in Hother.
    rewrite Hother. reflexivity.
Qed.

(** X7.  Who deletes a conversation, and what goes with it.
    [deleteConversation] answers 200 exactly when the conversation is
    stored, the caller is one of its participants or its creator, and,
    for a group, the caller is one of its admins.  It then removes the
    conversation and exactly the messages of that conversation, and
    tells every participant but the caller.  In every other case
    nothing changes. *)
(** X7.  What [deleteConversation] does.  It answers 200 exactly for
    a direct conversation of the caller: the conversation and its
    messages are then deleted, the other messages stay, and the other
    participant is told.  It answers 500 exactly for a group of the
    caller, admin or not, and in every case but the first nothing
    changes. *)
Theorem deleteConversation_outcome (userId conversationId : nat) (w : World) :
  let r := deleteConversation userId conversationId w in
  (status (fst r) = 200 <->
   exists c,
     conversations w !! conversationId = Some c
     /\ In userId (Conversation.participants c)
     /\ Conversation.isGroup c = false)
  /\ (status (fst r) = 500 <->
      exists c,
        conversations w !! conversationId = Some c
        /\ In userId (Conversation.participants c)
        /\ Conversation.isGroup c = true)
  /\ (status (fst r) = 200 ->
      conversations (snd r) = delete conversationId (conversations w)
      /\ (forall k m,
            messages (snd r) !! k = Some m <->
            messages w !! k = Some m
            /\ Message.conversationId m <> conversationId)
      /\ exists c,
           conversations w !! conversationId = Some c
           /\ outbox (snd r)
              = outbox w
                ++ List.map
                     (fun participantId =>
                        {| target := ToUser participantId;
                           event := "conversation_deleted";
                           payload := PConversationDeleted
                                        (Conversation._id c) userId |})
                     (List.filter
                        (fun participantId => negb (participantId =? userId))
                        (Conversation.participants c)))
  /\ (status (fst r) <> 200 -> snd r = w).
Proof.
  intros r. unfold r, deleteConversation.
  destruct (findConversation conversationId (isParticipant userId) w)
    as [c|] eqn:Hfind.
  - apply findConversation_Some in Hfind as [Hlook Hq].
    apply includes_In in Hq.
    destruct (Conversation.isGroup c) eqn:Hg.
    + split; [|split; [|split]].
      * split; [discriminate|]. intros (c' & Hlook' & _ & Hd). congruence.
      * split; [|reflexivity]. intros _. exists c. auto.
      * discriminate.
      * reflexivity.
    + split; [|split; [|split]].
      * split; [|reflexivity]. intros _. exists c. auto.
      * split; [discriminate|]. intros (c' & Hlook' & _ & Hd). congruence.
      * intros _. cbn. split; [reflexivity|]. split; [|exists c; auto].
        intros k m. unfold Message.deleteMany.
        rewrite map_lookup_filter_Some. reflexivity.
      * intros H. destruct H. reflexivity.
  - assert (Hnone : forall c, conversations w !! conversationId = Some c ->
                              In userId (Conversation.participants c) -> False).
    { intros c Hlook Hin.
      assert (Hsome : findConversation conversationId (isParticipant userId) w
                      = Some c)
        by (apply findConversation_Some; split;
            [exact Hlook | apply includes_In; exact Hin]).
      congruence. }
    split; [|split; [|split]].
    + split; [discriminate|]. intros (c & Hlook & Hin & _).
      destruct (Hnone c Hlook Hin).
    + split; [discriminate|]. intros (c & Hlook & Hin & _).
      destruct (Hnone c Hlook Hin).
    + discriminate.
    + reflexivity.
Qed.

(** *** Sending over HTTP, and reading back what was sent *)

(** X9.  What [sendMessage] does in a conversation of the sender and
    the recipient.  A content that is not empty is stored under a fresh
    identifier, as it came and flagged as encrypted; then the
    conversation is refused by its validators, so the answer is 500,
    the conversation is not stamped and nothing is emitted.  An empty
    content is refused before anything is stored. *)
Theorem sendMessage_stores_then_fails (senderId : nat) (client : Client)
    (conversationId recipientId : nat) (content : JSString) (now : Z)
    (w : World) (c : Conversation.t) :
  conversations w !! conversationId = Some c ->
  In senderId (Conversation.participants c) ->
  In recipientId (Conversation.participants c) ->
  let r := sendMessage senderId client conversationId recipientId content now w in
  fst r = json 500 (Error "Failed to send message")
  /\ conversations (snd r) = conversations w
  /\ outbox (snd r) = outbox w
  /\ (content = [] -> messages (snd r) = messages w)
  /\ (content <> [] ->
      exists m,
        messages (snd r) = <[ Message._id m := m ]> (messages w)
        /\ messages w !! Message._id m = None
        /\ Message.conversationId m = conversationId
        /\ Message.sender m = senderId
        /\ Message.recipient m = recipientId
        /\ Message.content m = content
        /\ Message.isEncrypted m = true
        /\ Message.read m = false
        /\ Message.createdAt m = now).
Proof.
  intros Hlook Hs Hr r. unfold r. destruct content as [|ch rest].
  - rewrite (sendMessage_empty_content _ _ _ _ _ _ c Hlook Hs Hr).
    repeat split. congruence.
  - rewrite (sendMessage_result _ _ _ _ _ _ _ c Hlook Hs Hr)
      by discriminate.
    cbn [fst snd]. repeat split; [discriminate|].
    intros _.
    match goal with
    | |- context [<[ _ := ?x ]> (messages w)] => exists x
    end.
    split; [reflexivity|]. split; [apply fresh_not_stored|]. repeat split.
Qed.

Lemma find_sorted_newest (conversationId : nat) (w w' : World)
    (m : Message.t) :
  messages w' = <[ Message._id m := m ]> (messages w) ->
  Message.conversationId m = conversationId ->
  (forall k x, messages w !! k = Some x ->
               Message.conversationId x = conversationId ->
               (Message.createdAt x < Message.createdAt m)%Z) ->
  exists rest, find_sorted conversationId None w' = m :: rest.
Proof.
  intros Hstore Hconv Hnewest.
  assert (Hin : In m (find_sorted conversationId None w')).
  { apply In_find_sorted. split; [|auto].
    exists (Message._id m). rewrite Hstore. apply lookup_insert_eq. }
  pose proof (sort_sorted
                (Message.find (page_query conversationId None) (messages w')))
    as Hsorted.
  fold (find_sorted conversationId None w') in Hsorted.
  destruct (find_sorted conversationId None w') as [|h rest] eqn:Hlist;
    [destruct Hin|].
  exists rest. f_equal.
  assert (Hh : stored_before conversationId None w' h)
    by (apply In_find_sorted; rewrite Hlist; left; reflexivity).
  destruct Hh as ((k & Hk) & Hhc & _). rewrite Hstore in Hk.
  apply lookup_insert_Some in Hk as [[_ Heq] | [_ Hk]]; [congruence|].
  destruct Hin as [Heq | Hin]; [exact Heq|].
  apply StronglySorted_inv in Hsorted as [_ Hall].
  rewrite List.Forall_forall in Hall. specialize (Hall m Hin).
  specialize (Hnewest k h Hk Hhc). unfold not_older in Hall. lia.
Qed.

(** The page that ends with the newest message. *)
Lemma getMessages_newest (reader conversationId : nat) (limit : option nat)
    (w w' : World) (c : Conversation.t) (m : Message.t) :
  conversations w' !! conversationId = Some c ->
  In reader (Conversation.participants c) ->
  limit <> Some 0 ->
  messages w' = <[ Message._id m := m ]> (messages w) ->
  Message.conversationId m = conversationId ->
  (forall k x, messages w !! k = Some x ->
               Message.conversationId x = conversationId ->
               (Message.createdAt x < Message.createdAt m)%Z) ->
  exists earlier hasMore,
    getMessages reader conversationId limit None w'
    = json 200 (Messages (earlier ++ [decrypt_view m]) hasMore).
Proof.
  intros Hlook Hin Hlimit Hstore Hconv Hnewest.
  rewrite (getMessages_participant _ _ _ _ _ c Hlook Hin).
  destruct (find_sorted_newest conversationId w w' m Hstore Hconv Hnewest)
    as [rest ->].
  set (l := match limit with Some l => l | None => 50 end).
  assert (Hl : exists n, l = S n).
  { unfold l. destruct limit as [[|n]|]; [congruence | eauto | eauto]. }
  destruct Hl as [n ->]. cbn [firstn List.map rev].
  eexists. eexists. reflexivity.
Qed.


(** The record written by [send_message]. *)
Lemma on_send_message_record (socket : Socket)
    (conversationId recipientId : nat) (content : JSString) (iv : list byte)
    (now : Z) (w : World) (envelope : JSString) :
  content <> [] ->
  encryptMessage iv content = Returns envelope ->
  let w' :=
    on_send_message socket
      {| data_conversationId := Some conversationId;
         data_recipientId := Some recipientId;
         data_content := Some content |} iv now w in
  exists stored,
    messages w' = <[ Message._id stored := stored ]> (messages w)
    /\ conversations w' = conversations w
    /\ Message.content stored = envelope
    /\ Message.isEncrypted stored = true
    /\ Message.sender stored = socket_user socket
    /\ Message.recipient stored = recipientId
    /\ Message.conversationId stored = conversationId
    /\ Message.read stored = false
    /\ Message.createdAt stored = now.
Proof.
  intros Hne Henc w'. unfold w', on_send_message.
  cbn [data_content data_recipientId data_conversationId].
  destruct content as [|ch rest]; [congruence|].
  rewrite Henc. unfold emit, emit_all, with_messages.
  cbn [messages conversations]. eexists.
  split; [reflexivity|]. repeat split.
Qed.

(** X10.  A message sent over the socket is read back as it was
    written.  After [send_message] with a complete payload, under a
    32-byte key, at a time later than every message of the conversation,
    a page fetch by a participant (without cursor, with a limit other
    than 0) answers 200 and ends with the new message: the stored
    record, whose content is the envelope, shown with the decoding of
    the bytes of the text that was sent, which is that text when it is
    well formed. *)
Theorem socket_message_read_back (socket : Socket)
    (conversationId recipientId reader : nat) (content : JSString)
    (iv : list byte) (now : Z) (limit : option nat) (w : World)
    (c : Conversation.t) :
  length (Buffer.from_hex ENCRYPTION_KEY) = KEY_LENGTH ->
  length iv = IV_LENGTH ->
  content <> [] ->
  conversations w !! conversationId = Some c ->
  In reader (Conversation.participants c) ->
  (forall k x, messages w !! k = Some x ->
               Message.conversationId x = conversationId ->
               (Message.createdAt x < now)%Z) ->
  limit <> Some 0 ->
  let w' :=
    on_send_message socket
      {| data_conversationId := Some conversationId;
         data_recipientId := Some recipientId;
         data_content := Some content |} iv now w in
  exists earlier hasMore stored shown,
    getMessages reader conversationId limit None w'
    = json 200
        (Messages (earlier ++ [Message.with_content shown stored]) hasMore)
    /\ shown = Buffer.toString (Buffer.from_string content)
    /\ (Utf8.well_formed content = true -> shown = content)
    /\ messages w' !! Message._id stored = Some stored
    /\ encryptMessage iv content = Returns (Message.content stored)
    /\ Message.sender stored = socket_user socket
    /\ Message.recipient stored = recipientId
    /\ Message.conversationId stored = conversationId
    /\ Message.createdAt stored = now.
Proof.
  intros Hkey Hiv Hne Hlook Hin Hnewest Hlimit w'.
  destruct (encryptMessage_returns iv content Hkey Hiv) as [envelope Henc].
  destruct (on_send_message_record socket conversationId recipientId content
              iv now w envelope Hne Henc)
    as (stored & Hstore & Hcs & Hcontent & Hflag & Hsender & Hrecipient
        & Hconv & _ & Hcreated).
  fold w' in Hstore, Hcs.
  destruct (getMessages_newest reader conversationId limit w w' c stored)
    as (earlier & hasMore & Hpage); try assumption.
  - rewrite Hcs. exact Hlook.
  - rewrite Hcreated. exact Hnewest.
  - exists earlier, hasMore, stored,
      (Buffer.toString (Buffer.from_string content)).
    assert (Hview : decrypt_view stored
                    = Message.with_content
                        (Buffer.toString (Buffer.from_string content)) stored).
    { unfold decrypt_view. rewrite Hflag, Hcontent.
      rewrite (decryptMessage_of_encryptMessage iv _ _ Henc).
      reflexivity. }
    rewrite <- Hview. split; [exact Hpage|].
    split; [reflexivity|].
    split; [intros Hwf; unfold Buffer.toString, Buffer.from_string;
            apply decode_encode; exact Hwf|].
    split; [rewrite Hstore; apply lookup_insert_eq|].
    rewrite Hcontent. auto.
Qed.

(** X11.  A message sent over HTTP is read back as a failure.
    [sendMessage] stores a text that is not empty as it came, flagged
    as encrypted, and answers 500; when the text holds no colon, a page
    fetch by a participant, at a time later than every message of the
    conversation, ends with that message shown as
    "[Message decryption failed]". *)
Theorem http_message_read_back (senderId recipientId reader : nat)
    (client : Client) (conversationId : nat) (content : JSString) (now : Z)
    (limit : option nat) (w : World) (c : Conversation.t) :
  conversations w !! conversationId = Some c ->
  In senderId (Conversation.participants c) ->
  In recipientId (Conversation.participants c) ->
  In reader (Conversation.participants c) ->
  content <> [] ->
  no_colon content = true ->
  (forall k x, messages w !! k = Some x ->
               Message.conversationId x = conversationId ->
               (Message.createdAt x < now)%Z) ->
  limit <> Some 0 ->
  let r := sendMessage senderId client conversationId recipientId content now w in
  status (fst r) = 500
  /\ exists earlier hasMore stored,
       getMessages reader conversationId limit None (snd r)
       = json 200
           (Messages
              (earlier ++ [Message.with_content decryption_failed stored])
              hasMore)
       /\ messages (snd r) !! Message._id stored = Some stored
       /\ Message.content stored = content
       /\ Message.sender stored = senderId
       /\ Message.recipient stored = recipientId
       /\ Message.createdAt stored = now.
Proof.
  intros Hlook Hs Hr Hin Hne Hno Hnewest Hlimit r. unfold r.
  rewrite (sendMessage_result _ _ _ _ _ _ _ c Hlook Hs Hr Hne).
  cbn [fst snd]. split; [reflexivity|].
  match goal with
  | |- context [<[ _ := ?x ]> (messages w)] => set (m := x)
  end.
  set (w' := with_messages (<[ fresh (dom (messages w)) := m ]> (messages w)) w).
  destruct (getMessages_newest reader conversationId limit w w' c m)
    as (earlier & hasMore & Hpage); try assumption; try reflexivity.
  exists earlier, hasMore, m.
  assert (Hview : decrypt_view m = Message.with_content decryption_failed m).
  { unfold decrypt_view. cbn [Message.isEncrypted Message.content m].
    rewrite (decryptMessage_single_part content content
               (split_colon_single _ Hno)).
    reflexivity. }
  rewrite <- Hview. split; [exact Hpage|].
  split; [apply lookup_insert_eq|]. repeat split.
Qed.

(** *** What every run of the server keeps: the messages *)

Lemma sendMessage_messages (senderId : nat) (client : Client)
    (conversationId recipientId : nat) (content : JSString) (now : Z)
    (w : World) :
  messages
    (snd (sendMessage senderId client conversationId recipientId content now w))
  = messages w
  \/ exists m,
       messages
         (snd (sendMessage senderId client conversationId recipientId content
                 now w))
       = <[ Message._id m := m ]> (messages w)
       /\ Message._id m = fresh (dom (messages w))
       /\ Message.isEncrypted m = true.
Proof.
  unfold sendMessage.
  destruct (findConversation conversationId _ w) as [c|]; [|left; reflexivity].
  destruct (Message.validate _); [|left; reflexivity].
  destruct (Conversation.save _ _ _ _) as [[doc cs]|];
    right; eexists; repeat split.
Qed.

Lemma messages_ok_insert (ms : gmap nat Message.t) (m : Message.t) :
  messages_ok ms -> Message.isEncrypted m = true ->
  messages_ok (<[ Message._id m := m ]> ms).
Proof.
  intros Hok Hflag k x Hlook.
  apply lookup_insert_Some in Hlook as [[<- <-] | [_ Hlook]]; auto.
Qed.

Lemma messages_ok_read (ms : gmap nat Message.t) (k : nat) (m : Message.t)
    (now : Z) :
  messages_ok ms -> ms !! k = Some m ->
  messages_ok (<[ k := Message.mark_read now m ]> ms).
Proof.
  intros Hok Hm. destruct (Hok k m Hm) as [Hid Hflag].
  rewrite <- Hid. apply (messages_ok_insert ms (Message.mark_read now m) Hok).
  exact Hflag.
Qed.

Lemma serve_messages_ok (request : Request) (now : Z) (w : World) :
  messages_ok (messages w) -> messages_ok (messages (serve request now w)).
Proof.
  intros Hok. destruct request; cbn [serve].
  - destruct (sendMessage_messages senderId client conversationId recipientId
                content now w) as [-> | (m & -> & _ & Hflag)]; [exact Hok|].
    apply messages_ok_insert; assumption.
  - unfold markAsRead.
    destruct (messages w !! messageId) as [m|] eqn:Hm; [|exact Hok].
    destruct (_ =? _); [|exact Hok]. cbn. apply messages_ok_read; assumption.
  - unfold deleteMessage.
    destruct (messages w !! messageId) as [m|] eqn:Hm; [|exact Hok].
    destruct (_ =? _); [|exact Hok]. cbn. intros k x Hlook.
    apply lookup_delete_Some in Hlook as [_ Hlook]. exact (Hok k x Hlook).
  - unfold deleteConversation.
    destruct (findConversation conversationId _ w) as [c|]; [|exact Hok].
    destruct (Conversation.isGroup c); [exact Hok|]. cbn. intros k x Hlook.
    unfold Message.deleteMany in Hlook.
    apply map_lookup_filter_Some in Hlook as [Hlook _]. exact (Hok k x Hlook).
  - rewrite leaveGroup_world. exact Hok.
  - rewrite removeParticipantFromGroup_world. exact Hok.
  - exact Hok.
  - exact Hok.
  - rewrite createGroupConversation_rejected. exact Hok.
  - unfold on_send_message.
    destruct (data_content data) as [[|ch rest]|]; try exact Hok;
      destruct (data_recipientId data); try exact Hok;
      destruct (data_conversationId data); try exact Hok.
    destruct (encryptMessage iv _); [|exact Hok].
    cbn. apply (messages_ok_insert (messages w)); [exact Hok | reflexivity].
  - exact Hok.
  - unfold on_message_read.
    destruct (messages w !! messageId) as [m|] eqn:Hm; [|exact Hok].
    destruct (_ =? _); [|exact Hok]. cbn.
    destruct (Message.read m) eqn:Hread.
    + intros k x Hlook.
      apply lookup_insert_Some in Hlook as [[<- <-] | [_ Hlook]];
        [exact (Hok _ _ Hm) | exact (Hok _ _ Hlook)].
    + apply messages_ok_read; assumption.
Qed.

Lemma run_messages_ok (trace : list (Request * Z)) (w : World) :
  messages_ok (messages w) -> messages_ok (messages (run trace w)).
Proof.
  revert w. induction trace as [|[request now] rest IH]; intros w Hok; cbn.
  - exact Hok.
  - apply IH, serve_messages_ok, Hok.
Qed.

(** X12.  Whatever requests the server has served since the store was
    empty, every stored message sits under its own identifier and is
    flagged as encrypted: no handler ever clears the flag or stores a
    message without it, so [getMessages] tries to decrypt every message
    it shows. *)
Theorem stored_messages_are_flagged (trace : list (Request * Z)) (k : nat)
    (m : Message.t) :
  messages (run trace empty_world) !! k = Some m ->
  Message._id m = k
  /\ Message.isEncrypted m = true
  /\ forall reason,
       decryptMessage (Message.content m) = Throws reason ->
       Message.content (decrypt_view m) = decryption_failed.
Proof.
  intros Hlook.
  assert (Hok : messages_ok (messages (run trace empty_world))).
  { apply run_messages_ok. intros k' m' H. cbn in H.
    rewrite lookup_empty in H. discriminate. }
  destruct (Hok k m Hlook) as [Hid Hflag].
  split; [exact Hid|]. split; [exact Hflag|].
  intros reason Hthrows. destruct (decrypt_view_content m) as [Hdec _].
  destruct (Hdec Hflag) as [_ Hfailed]. exact (Hfailed reason Hthrows).
Qed.


(** *** The list of conversations *)

Lemma insert_updated_desc_Permutation (c : Conversation.t)
    (l : list Conversation.t) :
  Permutation (insert_updated_desc c l) (c :: l).
Proof.
  induction l as [|x rest IH]; cbn; [reflexivity|].
  destruct (Conversation.updatedAt c <? Conversation.updatedAt x)%Z;
    [|reflexivity].
  rewrite IH. apply perm_swap.
Qed.

Lemma sort_updatedAt_Permutation (l : list Conversation.t) :
  Permutation (sort_updatedAt_desc l) l.
Proof.
  induction l as [|x rest IH]; cbn; [reflexivity|].
  rewrite insert_updated_desc_Permutation, IH. reflexivity.
Qed.


Lemma summarize_all_Throws (userId : nat) (w : World)
    (l : list Conversation.t) (c : Conversation.t) (reason : string) :
  In c l -> summarize userId w c = Throws reason ->
  exists reason', summarize_all userId w l = Throws reason'.
Proof.
  intros Hin Hthrows. induction l as [|x rest IH]; [destruct Hin|].
  cbn [summarize_all]. destruct (summarize userId w x) as [item|reason'] eqn:Hx;
    [|eauto].
  destruct Hin as [-> | Hin]; [congruence|].
  destruct (IH Hin) as [reason' ->]. eauto.
Qed.

(** X14.  One last message that cannot be decrypted fails a whole
    answer.  When a conversation of the caller records a last message
    whose content [decryptMessage] rejects, [getConversations] answers
    500 for the whole list, and [getConversationById] answers 500 for
    that conversation. *)
Theorem undecryptable_last_message_fails (userId conversationId : nat)
    (w : World) (c : Conversation.t) (last : Conversation.LastMessage.t)
    (reason : string) :
  conversations w !! conversationId = Some c ->
  In userId (Conversation.participants c) ->
  Conversation.lastMessage c = Some last ->
  decryptMessage (Conversation.LastMessage.content last) = Throws reason ->
  getConversations userId w = (500, Throws "Server error")
  /\ getConversationById userId conversationId w
     = json 500 (Error "Server error").
Proof.
  intros Hlook Hin Hlast Hthrows. split.
  - unfold getConversations.
    set (found := sort_updatedAt_desc
                    (List.filter (isParticipant userId)
                       (List.map snd (map_to_list (conversations w))))).
    assert (Hc : In c found).
    { apply (Permutation_in _
               (Permutation_sym (sort_updatedAt_Permutation _))).
      apply filter_In. split; [apply In_values; eauto|].
      apply includes_In. exact Hin. }
    assert (Hsum : summarize userId w c = Throws reason)
      by (unfold summarize, decrypt_last; rewrite Hlast, Hthrows; reflexivity).
    destruct (summarize_all_Throws userId w found c reason Hc Hsum)
      as [reason' ->].
    reflexivity.
  - unfold getConversationById.
    rewrite (findConversation_found _ _ _ c Hlook)
      by (apply includes_In; exact Hin).
    unfold decrypt_last. rewrite Hlast, Hthrows. reflexivity.
Qed.

(** *** The socket handlers: refusals and repeated receipts *)

Lemma insert_fresh_ne {A : Type} (ms : gmap nat A) (x : A) :
  <[ fresh (dom ms) := x ]> ms <> ms.
Proof.
  intros Heq. apply (f_equal (fun m => m !! fresh (dom ms))) in Heq.
  rewrite lookup_insert_eq, fresh_not_stored in Heq. discriminate.
Qed.

(** X15.  When [send_message] stores a message.  The handler never
    touches the conversations.  It stores a message exactly when the
    payload holds a content that is not empty, a recipient and a
    conversation, the key decodes to 32 bytes and the initialization
    vector has 16; in every other case the messages are as before and
    the only effect is one [error] event on the calling connection. *)
Theorem on_send_message_stores_iff (socket : Socket) (data : SendData)
    (iv : list byte) (now : Z) (w : World) :
  let w' := on_send_message socket data iv now w in
  conversations w' = conversations w
  /\ (messages w' <> messages w <->
      (exists content, data_content data = Some content /\ content <> [])
      /\ data_recipientId data <> None
      /\ data_conversationId data <> None
      /\ length (Buffer.from_hex ENCRYPTION_KEY) = KEY_LENGTH
      /\ length iv = IV_LENGTH)
  /\ (messages w' = messages w ->
      exists reason,
        w' = emit (ToSocket (socket_id socket)) "error" (PError reason) w
        /\ (reason = "Missing required fields"
            \/ reason = "Failed to send message")).
Proof.
  intros w'. unfold w', on_send_message.
  destruct (data_content data) as [[|ch rest]|] eqn:Hcontent.
  - cbn. split; [reflexivity|]. split; [|eauto].
    split; [congruence|]. intros ((content & [= <-] & Hne) & _). congruence.
  - destruct (data_recipientId data) as [recipientId|] eqn:Hrecipient.
    + destruct (data_conversationId data) as [conversationId|] eqn:Hconv.
      * unfold encryptMessage, valid_key_iv.
        destruct (length (Buffer.from_hex ENCRYPTION_KEY) =? KEY_LENGTH)
          eqn:Hkey; cbn [andb].
        -- destruct (length iv =? IV_LENGTH) eqn:Hiv.
           ++ apply Nat.eqb_eq in Hkey, Hiv. cbn. split; [reflexivity|].
              split.
              ** split; [|intros _; apply insert_fresh_ne].
                 intros _. repeat split; try congruence.
                 exists (ch :: rest). split; congruence.
              ** intros Heq. destruct (insert_fresh_ne _ _ Heq).
           ++ apply Nat.eqb_neq in Hiv. cbn. split; [reflexivity|].
              split; [|eauto]. split; [congruence|]. tauto.
        -- apply Nat.eqb_neq in Hkey. cbn. split; [reflexivity|].
           split; [|eauto]. split; [congruence|]. tauto.
      * cbn. split; [reflexivity|]. split; [|eauto].
        split; [congruence|]. tauto.
    + cbn. split; [reflexivity|]. split; [|eauto].
      split; [congruence|]. tauto.
  - cbn. split; [reflexivity|]. split; [|eauto].
    split; [congruence|]. intros ((content & Hc & _) & _). discriminate.
Qed.


(** *** [server/utils/encryption.js] *)

(** A text of ASCII characters is encoded one byte per character. *)
Lemma length_encode_ascii (text : JSString) :
  one_byte_chars text -> length (Utf8.encode text) = length text.
Proof.
  unfold one_byte_chars. induction text as [|c rest IH]; intros Hall;
    [reflexivity|].
  inversion Hall as [|? ? Hc Hrest]; subst.
  cbn [Utf8.encode].
  replace (Utf8.is_lead c) with false
    by (symmetry; apply is_lead_false; lia).
  replace (Utf8.is_trail c) with false
    by (symmetry; apply is_trail_false; lia).
  unfold Utf8.encode_point.
  replace (c <? 0x80)%N with true by (symmetry; apply N.ltb_lt; exact Hc).
  cbn [app length]. rewrite (IH Hrest). reflexivity.
Qed.

(** A key of ASCII characters is always brought to 32 bytes. *)
Lemma length_key_buffer (env : option JSString) :
  one_byte_chars (encryption_key env) ->
  length (key_buffer env) = KEY_LENGTH.
Proof.
  intros Hkey. unfold key_buffer, slice_0, padEnd, Buffer.from_string.
  rewrite length_encode_ascii.
  - rewrite length_firstn, length_app, repeat_length. unfold KEY_LENGTH. lia.
  - unfold one_byte_chars in *. apply List.Forall_forall.
    intros x Hx. apply In_firstn in Hx. apply in_app_iff in Hx as [Hx | Hx].
    + rewrite List.Forall_forall in Hkey. exact (Hkey x Hx).
    + apply repeat_spec in Hx. subst x. reflexivity.
Qed.

(** [decrypt] on a text with two parts that are not empty. *)
Lemma decrypt_two_parts (env : option JSString) (a b : CodeUnit)
    (r e : JSString) :
  no_colon (a :: r) = true -> no_colon (b :: e) = true ->
  decrypt env ((a :: r) ++ JS.colon :: b :: e)
  = if valid_key_iv (key_buffer env) (Buffer.from_hex (a :: r))
       && Nat.even (length (b :: e))
    then match decipher_update_final (key_buffer env)
                 (Buffer.from_hex (a :: r)) (Buffer.from_hex (b :: e))
         with
         | Some decrypted => Buffer.toString decrypted
         | None => (a :: r) ++ JS.colon :: b :: e
         end
    else (a :: r) ++ JS.colon :: b :: e.
Proof.
  intros Ha Hb. unfold decrypt. rewrite (split_colon_envelope _ _ Ha Hb).
  reflexivity.
Qed.

(** X25.  The round trip of [utils/encryption.js].  Under a key of
    ASCII characters, whatever its length, and for every well-formed
    text, the empty one included, [encrypt] returns and [decrypt] gives
    the text back from what [encrypt] returned; the empty text is
    returned as it is by both. *)
Theorem decrypt_encrypt (env : option JSString) (iv : list byte)
    (text : JSString) :
  one_byte_chars (encryption_key env) ->
  length iv = IV_LENGTH ->
  Utf8.well_formed text = true ->
  exists encrypted,
    encrypt env iv text = Returns encrypted
    /\ decrypt env encrypted = text
    /\ (text = [] <-> encrypted = []).
Proof.
  intros Hkey Hiv Hwf. destruct text as [|ch rest].
  - exists []. repeat split; reflexivity.
  - pose proof (length_key_buffer env Hkey) as Hkeylen. unfold encrypt.
    rewrite (valid_key_iv_true _ _ Hkeylen Hiv).
    eexists. split; [reflexivity|].
    set (data := Buffer.from_string (ch :: rest)).
    set (ct := cipher_update_final (key_buffer env) iv data).
    assert (Hct : length ct = BLOCK * (length data / BLOCK + 1)).
    { unfold ct, cipher_update_final.
      pose proof (length_pad data) as Hpad.
      assert (Hdiv : length (Pkcs7.pad data) / BLOCK = length data / BLOCK + 1)
        by (rewrite Hpad, Nat.mul_comm; apply Nat.div_mul; discriminate).
      rewrite Hdiv. apply length_cbc_encrypt;
        [exact Hkeylen | exact Hiv | exact Hpad]. }
    assert (Hivhex : exists a r, Buffer.toString_hex iv = a :: r).
    { destruct iv as [|i0 iv']; [discriminate|].
      cbn [Buffer.toString_hex]. eauto. }
    assert (Hcthex : exists b e, Buffer.toString_hex ct = b :: e).
    { destruct ct as [|c0 ct']; [cbn in Hct; unfold BLOCK in Hct; lia|].
      cbn [Buffer.toString_hex]. eauto. }
    destruct Hivhex as (a & r & Hivhex). destruct Hcthex as (b & e & Hcthex).
    pose proof (no_colon_toString_hex iv) as Hnoiv.
    pose proof (no_colon_toString_hex ct) as Hnoct.
    pose proof (from_hex_toString_hex iv) as Hfromiv.
    pose proof (from_hex_toString_hex ct) as Hfromct.
    pose proof (length_toString_hex ct) as Hlenct.
    rewrite Hivhex in *. rewrite Hcthex in *.
    split; [|split; discriminate].
    rewrite (decrypt_two_parts env a b r e Hnoiv Hnoct).
    rewrite Hfromiv, Hfromct, Hlenct, Nat.even_even.
    rewrite (valid_key_iv_true _ _ Hkeylen Hiv). cbn [andb].
    unfold ct. rewrite decipher_cipher by (exact Hkeylen || exact Hiv).
    unfold data, Buffer.toString, Buffer.from_string.
    apply decode_encode. exact Hwf.
Qed.

(** X26.  [decrypt] passes through what is not an envelope.  A text
    without a colon, or one whose part before or after the first colon
    is empty, is returned as it is. *)
Theorem decrypt_passes_plain_text (env : option JSString) (text : JSString) :
  no_colon text = true
  \/ (exists rest, text = JS.colon :: rest)
  \/ (exists first, no_colon first = true /\ text = first ++ [JS.colon]) ->
  decrypt env text = text.
Proof.
  intros [Hno | [[rest ->] | (first & Hfirst & ->)]].
  - unfold decrypt. destruct text as [|ch rest]; [reflexivity|].
    rewrite (split_colon_single _ Hno). reflexivity.
  - unfold decrypt. cbn [JS.split_colon]. rewrite N.eqb_refl. reflexivity.
  - unfold decrypt. rewrite split_colon_app by exact Hfirst.
    destruct (first ++ [JS.colon]); [reflexivity|].
    cbn [JS.split_colon]. destruct first; reflexivity.
Qed.

(** *** More on pages, on stored messages and on direct conversations *)

(** X27.  A page of no message.  With the limit 0 a participant gets
    an empty page, and [hasMore] tells whether the conversation holds
    any message older than the cursor. *)
Theorem getMessages_limit_zero (userId conversationId : nat)
    (before : option Z) (w : World) (c : Conversation.t) :
  conversations w !! conversationId = Some c ->
  In userId (Conversation.participants c) ->
  exists hasMore,
    getMessages userId conversationId (Some 0) before w
    = json 200 (Messages [] hasMore)
    /\ (hasMore = true <->
        exists m, stored_before conversationId before w m).
Proof.
  intros Hlook Hin.
  rewrite (getMessages_participant _ _ _ _ _ c Hlook Hin).
  eexists. split; [reflexivity|]. rewrite Nat.ltb_lt. split.
  - intros Hlen.
    destruct (find_sorted conversationId before w) as [|m rest] eqn:Hfound;
      [cbn in Hlen; lia|].
    exists m. apply In_find_sorted. rewrite Hfound. left. reflexivity.
  - intros [m Hm]. apply In_find_sorted in Hm.
    destruct (find_sorted conversationId before w); [destruct Hm | cbn; lia].
Qed.


(** The case of a request that leaves the messages as they are. *)
Ltac same_message Hm :=
  cbn [snd messages emit emit_all with_conversations on_typing
         addParticipantsToGroup updateGroupConversation];
  rewrite Hm; intros [= <-]; left; reflexivity.

(** X28.  The only change ever made to a stored message is to mark it
    as read.  Whatever request is served, a message that is stored
    before and after is either untouched or the same message marked as
    read at the time of the request: no handler edits the content, the
    parties, the conversation or the time of creation of a message. *)
Theorem stored_message_only_marked_read (request : Request) (now : Z)
    (w : World) (k : nat) (m m' : Message.t) :
  messages w !! k = Some m ->
  messages (serve request now w) !! k = Some m' ->
  m' = m \/ m' = Message.mark_read now m.
Proof.
  intros Hm. destruct request; cbn [serve].
  - destruct (sendMessage_messages senderId client conversationId recipientId
                content now w) as [-> | (x & -> & Hid & _)];
      [same_message Hm|].
    intros Hm'. apply lookup_insert_Some in Hm' as [[<- _] | [_ Hm']].
    + rewrite Hid, fresh_not_stored in Hm. discriminate.
    + left. congruence.
  - unfold markAsRead.
    destruct (messages w !! messageId) as [x|] eqn:Hx;
      [|same_message Hm].
    destruct (_ =? _); [|same_message Hm].
    cbn. intros Hm'.
    apply lookup_insert_Some in Hm' as [[<- <-] | [_ Hm']].
    + right. congruence.
    + left. congruence.
  - unfold deleteMessage.
    destruct (messages w !! messageId) as [x|];
      [|same_message Hm].
    destruct (_ =? _); [|same_message Hm].
    cbn. intros Hm'. apply lookup_delete_Some in Hm' as [_ Hm'].
    left. congruence.
  - unfold deleteConversation.
    destruct (findConversation conversationId _ w) as [c|];
      [|same_message Hm].
    destruct (Conversation.isGroup c); [same_message Hm|].
    cbn. intros Hm'. unfold Message.deleteMany in Hm'.
    apply map_lookup_filter_Some in Hm' as [Hm' _]. left. congruence.
  - rewrite leaveGroup_world. same_message Hm.
  - rewrite removeParticipantFromGroup_world. same_message Hm.
  - same_message Hm.
  - same_message Hm.
  - rewrite createGroupConversation_rejected. same_message Hm.
  - unfold on_send_message.
    destruct (data_content data) as [[|ch rest]|];
      try (same_message Hm; fail);
      destruct (data_recipientId data);
      try (same_message Hm; fail);
      destruct (data_conversationId data);
      try (same_message Hm; fail).
    destruct (encryptMessage iv _); [|same_message Hm].
    cbn. intros Hm'.
    apply lookup_insert_Some in Hm' as [[<- _] | [_ Hm']].
    + rewrite fresh_not_stored in Hm. discriminate.
    + left. congruence.
  - same_message Hm.
  - unfold on_message_read.
    destruct (messages w !! messageId) as [x|] eqn:Hx;
      [|same_message Hm].
    destruct (_ =? _); [|same_message Hm].
    cbn. intros Hm'.
    apply lookup_insert_Some in Hm' as [[<- <-] | [_ Hm']].
    + destruct (Message.read x); [left | right]; congruence.
    + left. congruence.
Qed.


(** X30.  No request ever writes a conversation.  Whatever requests
    are served, a conversation stored afterwards was stored, the same,
    before; a stored group is still there, unchanged; and a store that
    was empty of conversations stays so: every save of a conversation
    is refused by its validators, and the handlers that filter on
    [admins] find nothing.  Only [deleteConversation], for a direct
    conversation, changes the collection. *)
Theorem conversations_never_written (trace : list (Request * Z)) (w : World) :
  (forall k c, conversations (run trace w) !! k = Some c ->
               conversations w !! k = Some c)
  /\ (forall k c, conversations w !! k = Some c ->
                  Conversation.isGroup c = true ->
                  conversations (run trace w) !! k = Some c)
  /\ (conversations w = ∅ -> conversations (run trace w) = ∅).
Proof.
  destruct (run_conversations trace w) as [Hback Hkeep].
  split; [exact Hback|]. split; [exact Hkeep|].
  intros Hempty. apply map_eq. intros k. rewrite lookup_empty.
  destruct (conversations (run trace w) !! k) as [c|] eqn:Hk; [|reflexivity].
  apply Hback in Hk. rewrite Hempty, lookup_empty in Hk. discriminate.
Qed.
End Server.

(** ** The development on concrete inputs *)

Lemma xor_block_cipher_length (key block : list byte) :
  length key = KEY_LENGTH -> length block = BLOCK ->
  length (xor_block_cipher key block) = BLOCK.
Proof.
  intros Hkey Hblock. unfold xor_block_cipher.
  rewrite length_xor, length_firstn, Hkey, Hblock. reflexivity.
Qed.

Lemma xor_block_cipher_inverse (key block : list byte) :
  length key = KEY_LENGTH -> length block = BLOCK ->
  xor_block_cipher key (xor_block_cipher key block) = block.
Proof.
  intros Hkey Hblock. unfold xor_block_cipher. apply xor_involutive.
  rewrite length_firstn, Hkey, Hblock. reflexivity.
Qed.

(** *** The example worlds, evaluated *)

Lemma example_group_facts :
  exists c,
    conversations example_group !! 0 = Some c
    /\ Conversation._id c = 0
    /\ Conversation.isGroup c = true
    /\ Conversation.participants c = [1; 2; 3]
    /\ admins_of c = [1].
Proof. eexists. split; [vm_compute; reflexivity|]. repeat split. Qed.

Lemma example_group_only (k : nat) (c : Conversation.t) :
  conversations example_group !! k = Some c ->
  k = 0 /\ Conversation.participants c = [1; 2; 3] /\ admins_of c = [1].
Proof.
  intros Hlook. unfold example_group in Hlook. simpl in Hlook.
  apply lookup_singleton_Some in Hlook as [<- <-].
  repeat split.
Qed.

Lemma example_group_no_message : messages example_group = ∅.
Proof. reflexivity. Qed.

Lemma example_solo_facts :
  exists c,
    conversations example_solo !! 0 = Some c
    /\ Conversation.isGroup c = true
    /\ Conversation.participants c = [1]
    /\ admins_of c = [1].
Proof. eexists. split; [vm_compute; reflexivity|]. repeat split. Qed.

Lemma example_direct_facts :
  exists c,
    conversations example_direct !! 0 = Some c
    /\ Conversation._id c = 0
    /\ Conversation.isGroup c = false
    /\ Conversation.participants c = [1; 2]
    /\ Conversation.findOne (Conversation.direct_query 1 2)
         (conversations example_direct) = Some c.
Proof.
  eexists. split; [vm_compute; reflexivity|].
  repeat split.
Qed.

Lemma example_chat_facts :
  (exists m,
     messages example_chat !! 0 = Some m
     /\ Message.sender m = 1
     /\ Message.recipient m = 2
     /\ Message.conversationId m = 0
     /\ Message.content m = js "hello")
  /\ exists c,
       conversations example_chat !! 0 = Some c
       /\ Conversation.isGroup c = true
       /\ Conversation.participants c = [1; 2; 3].
Proof.
  split; eexists; (split; [vm_compute; reflexivity|]); repeat split.
Qed.


Lemma example_group_strangers : no_conversation_between 1 4 example_group.
Proof.
  intros k c Hlook [_ Hin].
  apply example_group_only in Hlook as (_ & Hparts & _).
  rewrite Hparts in Hin. simpl in Hin.
  destruct Hin as [H | [H | [H | []]]]; discriminate.
Qed.


Lemma one_byte_chars_check (text : JSString) :
  forallb (fun c => (c <? 128)%N) text = true -> one_byte_chars text.
Proof.
  intros Hall. apply List.Forall_forall. intros c Hc.
  rewrite forallb_forall in Hall. apply N.ltb_lt, Hall, Hc.
Qed.

(** *** The claims at concrete inputs *)

(** The round trip at the plaintext "hello", with [xor_block_cipher] for the
    block cipher, [example_key] and [example_iv]. *)
Lemma decryptMessage_encryptMessage_witness :
  Utf8.well_formed (js "hello") = true
  /\ length (Buffer.from_hex example_key) = KEY_LENGTH
  /\ length example_iv = IV_LENGTH
  /\ exists envelope,
       encryptMessage xor_block_cipher example_key example_iv (js "hello")
       = Returns envelope
       /\ decryptMessage xor_block_cipher example_key envelope
          = Returns (js "hello").
Proof.
  split; [reflexivity|]. split; [reflexivity|]. split; [reflexivity|].
  apply (decryptMessage_encryptMessage xor_block_cipher xor_block_cipher
           example_key xor_block_cipher_length xor_block_cipher_inverse);
    reflexivity.
Defined.

(** C5, as stated, fails.  The string made of the single code unit
    D800, a surrogate without its pair, is encrypted and decrypted
    under [example_key]: what comes back is the string made of U+FFFD,
    for the surrogate has no UTF-8 encoding and the bytes enciphered
    are those of U+FFFD. *)
Lemma unpaired_surrogate_is_not_restored :
  exists envelope,
    encryptMessage xor_block_cipher example_key example_iv [0xD800%N]
    = Returns envelope
    /\ decryptMessage xor_block_cipher example_key envelope
       = Returns [0xFFFD%N]
    /\ decryptMessage xor_block_cipher example_key envelope
       <> Returns [0xD800%N]
    /\ List.map N_of_ascii (Buffer.from_string [0xD800%N])
       = [0xEF; 0xBF; 0xBD]%N.
Proof.
  eexists. split; [vm_compute; reflexivity|].
  split; [vm_compute; reflexivity|].
  split; [vm_compute; discriminate | reflexivity].
Qed.

(** C1, at the failing input.  User 1 sends "hello" to user 2 in their
    group over HTTP: the message is stored with the plaintext as its
    content, flagged as encrypted, before the request fails with status
    500 on the conversation; no initialization vector makes
    [encryptMessage] return that content; a later page fetch shows the
    marker instead of the text.  The same payload over the socket is
    stored as an envelope. *)
Lemma sendMessage_persists_plaintext :
  let sent := sendMessage 1 example_client 0 2 (js "hello") 200 example_group in
  status (fst sent) = 500
  /\ Message.content <$> (messages (snd sent) !! 0) = Some (js "hello")
  /\ Message.isEncrypted <$> (messages (snd sent) !! 0) = Some true
  /\ (forall cipher key iv,
        encryptMessage cipher key iv (js "hello") <> Returns (js "hello"))
  /\ List.map Message.content
       match body (getMessages xor_block_cipher example_key 2 0 None None
                     (snd sent)) with
       | Messages page _ => page
       | _ => []
       end
     = [js "[Message decryption failed]"]
  /\ Message.content
       <$> (messages
              (on_send_message xor_block_cipher example_key (example_socket 1)
                 {| data_conversationId := Some 0; data_recipientId := Some 2;
                    data_content := Some (js "hello") |}
                 example_iv 200 example_group) !! 0)
     = Some (js "a0a1a2a3a4a5a6a7a8a9aaabacadaeaf:c8c5cccccfababababababababababab").
Proof.
  cbv zeta. repeat split; try (vm_compute; reflexivity).
  intros cipher key iv Henc.
  apply encryptMessage_has_colon in Henc. discriminate.
Qed.

(** [findOrCreateDirect] for users 1 and 2: on an empty collection,
    and on the collection of [example_direct], which holds their
    conversation. *)
Lemma findOrCreateDirect_twice_witness :
  (Conversation.findOrCreateDirect 1 2 100 ∅ = Throws "ValidationError"
   /\ Conversation.findOrCreateDirect 1 2 200 ∅ = Throws "ValidationError"
   /\ Conversation.findOrCreateDirect 2 1 200 ∅ = Throws "ValidationError")
  /\ exists c,
       Conversation.findOrCreateDirect 1 2 300 (conversations example_direct)
       = Returns (c, conversations example_direct)
       /\ Conversation.findOrCreateDirect 2 1 400 (conversations example_direct)
          = Returns (c, conversations example_direct).
Proof.
  split.
  - apply (proj1 (findOrCreateDirect_twice 1 2 100 200 ∅)). reflexivity.
  - destruct example_direct_facts as (c & _ & _ & _ & _ & Hfind).
    exists c.
    destruct (proj2 (findOrCreateDirect_twice 1 2 300 400
                       (conversations example_direct)) c Hfind)
      as (Hfirst & _ & Hswapped).
    split; assumption.
Defined.


(** In [example_solo] user 1, the only participant of the group 0,
    leaves and removes themselves. *)
Lemma last_participant_removal_witness :
  leaveGroup 1 0 example_solo
  = (json 500 (Error "Failed to leave group"), example_solo)
  /\ removeParticipantFromGroup 1 0 1 example_solo
     = (json 500 (Error "Failed to remove participant from group"),
        example_solo)
  /\ (status (getConversationById xor_block_cipher example_key 1 0 example_solo)
      = 200
      \/ status (getConversationById xor_block_cipher example_key 1 0
                   example_solo) = 500).
Proof.
  destruct example_solo_facts as (c & Hlook & Hg & Hparts & _).
  exact (last_participant_removal xor_block_cipher example_key 1 0 example_solo
           c Hlook Hg Hparts).
Defined.

(** User 1 sends "hello" to user 4, with whom no conversation is
    stored. *)
Lemma send_without_conversation_witness :
  no_conversation_between 1 4 example_group
  /\ socket_user (example_socket 1) = 1
  /\ js "hello" <> []
  /\ length (Buffer.from_hex example_key) = KEY_LENGTH
  /\ length example_iv = IV_LENGTH
  /\ sendMessage 1 example_client 0 4 (js "hello") 200 example_group
     = (json 403 (Error "Not authorized to send message in this conversation"),
        example_group)
  /\ let w' :=
       on_send_message xor_block_cipher example_key (example_socket 1)
         {| data_conversationId := Some 0; data_recipientId := Some 4;
            data_content := Some (js "hello") |} example_iv 200 example_group in
     conversations w' = conversations example_group
     /\ exists m,
          messages w' = <[ Message._id m := m ]> (messages example_group)
          /\ messages example_group !! Message._id m = None
          /\ encryptMessage xor_block_cipher example_key example_iv (js "hello")
             = Returns (Message.content m)
          /\ Message.sender m = 1
          /\ Message.recipient m = 4
          /\ Message.conversationId m = 0
          /\ outbox w'
             = outbox example_group
                 ++ [ {| target := ToUser 4; event := "receive_message";
                         payload :=
                           PMessage (Message.with_content (js "hello") m) |};
                      {| target := ToSocket (socket_id (example_socket 1));
                         event := "message_sent";
                         payload :=
                           PMessage (Message.with_content (js "hello") m) |} ].
Proof.
  assert (Htext : js "hello" <> []) by discriminate.
  destruct (send_without_conversation xor_block_cipher example_key 1 4 0
              (js "hello") example_client (example_socket 1) example_iv 200%Z
              example_group example_group_strangers) as [Hhttp Hsocket].
  split; [exact example_group_strangers|]. split; [reflexivity|].
  split; [exact Htext|].
  split; [reflexivity|]. split; [reflexivity|]. split; [exact Hhttp|].
  apply Hsocket; [reflexivity | exact Htext | reflexivity | reflexivity].
Defined.

(** C4, as stated, fails.  With no conversation stored at all, user 1
    sends "hello" to user 2: over HTTP the request is refused with status
    403 and nothing is stored; over the socket the message is stored and
    delivered, and still no conversation exists. *)
Lemma send_creates_no_conversation :
  let data := {| data_conversationId := Some 0; data_recipientId := Some 2;
                 data_content := Some (js "hello") |} in
  let pushed := on_send_message xor_block_cipher example_key (example_socket 1)
                  data example_iv 100 empty_world in
  sendMessage 1 example_client 0 2 (js "hello") 100 empty_world
  = (json 403 (Error "Not authorized to send message in this conversation"),
     empty_world)
  /\ size (messages pushed) = 1
  /\ List.map event (outbox pushed) = ["receive_message"; "message_sent"]
  /\ conversations pushed = ∅.
Proof. cbv zeta. repeat split; vm_compute; reflexivity. Qed.



(** The page of [example_damaged]: one content decrypts, the other does
    not. *)
Lemma page_survives_decryption_failure_witness :
  exists c,
    conversations example_damaged !! 0 = Some c
    /\ In 2 (Conversation.participants c)
    /\ (exists page hasMore,
          getMessages xor_block_cipher example_key 2 0 None None example_damaged
          = json 200 (Messages page hasMore))
    /\ List.map Message.content
         match body (getMessages xor_block_cipher example_key 2 0 None None
                       example_damaged) with
         | Messages page _ => page
         | _ => []
         end
       = [js "hello"; js "[Message decryption failed]"].
Proof.
  destruct example_group_facts as (c & Hlook & _ & _ & Hparts & _).
  assert (Hin : In 2 (Conversation.participants c))
    by (rewrite Hparts; simpl; auto).
  exists c. split; [exact Hlook|]. split; [exact Hin|]. split.
  - destruct (page_survives_decryption_failure xor_block_cipher example_key 2 0
                None None example_damaged c Hlook Hin)
      as (page & hasMore & Hpage & _).
    exists page, hasMore. exact Hpage.
  - vm_compute. reflexivity.
Defined.



(** *** The properties at concrete inputs *)

(** The envelope of "hello" under [example_key] and [example_iv]: one
    block of ciphertext, 65 characters. *)
Lemma encryptMessage_envelope_shape_witness :
  exists envelope,
    encryptMessage xor_block_cipher example_key example_iv (js "hello")
    = Returns envelope
    /\ exists ciphertext,
         envelope
         = Buffer.toString_hex example_iv
           ++ JS.colon :: Buffer.toString_hex ciphertext
         /\ JS.split_colon envelope
            = [Buffer.toString_hex example_iv; Buffer.toString_hex ciphertext]
         /\ length ciphertext
            = BLOCK * (length (Buffer.from_string (js "hello")) / BLOCK + 1)
         /\ length envelope
            = 2 * IV_LENGTH + 1
              + 2 * (BLOCK * (length (Buffer.from_string (js "hello")) / BLOCK
                              + 1)).
Proof.
  eexists. split; [vm_compute; reflexivity|].
  apply (encryptMessage_envelope_shape xor_block_cipher example_key
           xor_block_cipher_length example_iv (js "hello")).
  vm_compute. reflexivity.
Defined.

(** A plaintext kept as the content of a message is not an envelope. *)
Lemma decryptMessage_without_colon_witness :
  no_colon (js "hello") = true
  /\ decryptMessage xor_block_cipher example_key (js "hello")
     = Throws "Failed to decrypt message".
Proof.
  split; [reflexivity|].
  apply (decryptMessage_without_colon xor_block_cipher example_key (js "hello")).
  reflexivity.
Defined.

(** The envelope of "hello" followed by ":ignored". *)
Lemma decryptMessage_ignores_trailing_parts_witness :
  exists envelope,
    encryptMessage xor_block_cipher example_key example_iv (js "hello")
    = Returns envelope
    /\ decryptMessage xor_block_cipher example_key
         (envelope ++ JS.colon :: js "ignored")
       = decryptMessage xor_block_cipher example_key envelope
    /\ decryptMessage xor_block_cipher example_key
         (envelope ++ JS.colon :: js "ignored")
       = Returns (js "hello").
Proof.
  eexists. split; [vm_compute; reflexivity|].
  edestruct (decryptMessage_ignores_trailing_parts xor_block_cipher
               xor_block_cipher example_key xor_block_cipher_length
               xor_block_cipher_inverse example_iv (js "hello"))
    as (Hsame & _ & Hplain); [vm_compute; reflexivity|].
  split; [apply Hsame | apply Hplain; reflexivity].
Defined.

(** Two calls that return the envelope of "hello". *)
Lemma encryptMessage_injective_witness :
  exists envelope,
    encryptMessage xor_block_cipher example_key example_iv (js "hello")
    = Returns envelope
    /\ example_iv = example_iv
    /\ Buffer.from_string (js "hello") = Buffer.from_string (js "hello")
    /\ (Utf8.well_formed (js "hello") = true ->
        Utf8.well_formed (js "hello") = true -> js "hello" = js "hello").
Proof.
  eexists. split; [vm_compute; reflexivity|].
  eapply (encryptMessage_injective xor_block_cipher xor_block_cipher example_key
           xor_block_cipher_length xor_block_cipher_inverse
           example_iv example_iv (js "hello") (js "hello"));
    vm_compute; reflexivity.
Defined.

(** The default key of [utils/encryption.js] is not hexadecimal text:
    given to [utils/crypto.js] it decodes to two bytes. *)
Lemma key_of_wrong_length_fails_witness :
  length (Buffer.from_hex (js "default-encryption-key-32-characters-long"))
  <> KEY_LENGTH
  /\ (forall iv text,
        encryptMessage xor_block_cipher
          (js "default-encryption-key-32-characters-long") iv text
        = Throws "Failed to encrypt message")
  /\ (forall text,
        decryptMessage xor_block_cipher
          (js "default-encryption-key-32-characters-long") text
        = Throws "Failed to decrypt message").
Proof.
  split; [vm_compute; discriminate|].
  apply (key_of_wrong_length_fails xor_block_cipher xor_block_cipher
           (js "default-encryption-key-32-characters-long")).
  vm_compute. discriminate.
Defined.

(** In [example_chat] user 1 deletes the message they sent; user 2 may
    not. *)
Lemma deleteMessage_sender_only_witness :
  fst (deleteMessage 1 0 example_chat) = json 200 Success
  /\ deleteMessage 2 0 example_chat
     = (json 404 (Error "Message not found"), example_chat).
Proof.
  destruct example_chat_facts as [(m & Hlook & Hsender & _) _].
  split.
  - destruct (deleteMessage_sender_only 1 0 example_chat) as [Hown _].
    apply (Hown m Hlook Hsender).
  - destruct (deleteMessage_sender_only 2 0 example_chat) as [_ Hother].
    apply Hother. intros m' Hm'. rewrite Hlook in Hm'. injection Hm' as <-.
    rewrite Hsender. discriminate.
Defined.

(** In [example_direct] user 1 deletes the direct conversation 0; in
    [example_chat] the admin 1 cannot delete the group 0, and user 5,
    who has nothing to do with it, changes nothing. *)
Lemma deleteConversation_outcome_witness :
  status (fst (deleteConversation 1 0 example_direct)) = 200
  /\ conversations (snd (deleteConversation 1 0 example_direct))
     = delete 0 (conversations example_direct)
  /\ status (fst (deleteConversation 1 0 example_chat)) = 500
  /\ snd (deleteConversation 1 0 example_chat) = example_chat
  /\ snd (deleteConversation 5 0 example_chat) = example_chat.
Proof.
  destruct example_direct_facts as (d & Hd & _ & Hdirect & Hdparts & _).
  destruct example_chat_facts as [_ (c & Hlook & Hg & Hparts)].
  destruct (deleteConversation_outcome 1 0 example_direct)
    as (Hiff & _ & Hok & _).
  destruct (deleteConversation_outcome 1 0 example_chat)
    as (_ & Hiff1 & _ & Hfail1).
  destruct (deleteConversation_outcome 5 0 example_chat)
    as (Hiff5 & _ & _ & Hfail5).
  assert (Hstatus : status (fst (deleteConversation 1 0 example_direct)) = 200).
  { apply Hiff. exists d. split; [exact Hd|].
    split; [rewrite Hdparts; left; reflexivity | exact Hdirect]. }
  assert (Hstatus1 : status (fst (deleteConversation 1 0 example_chat)) = 500).
  { apply Hiff1. exists c. split; [exact Hlook|].
    split; [rewrite Hparts; left; reflexivity | exact Hg]. }
  split; [exact Hstatus|]. split; [apply (Hok Hstatus)|].
  split; [exact Hstatus1|]. split.
  - apply Hfail1. rewrite Hstatus1. discriminate.
  - apply Hfail5. intros H. apply Hiff5 in H as (c' & Hlook' & Hwho & _).
    rewrite Hlook in Hlook'. injection Hlook' as <-.
    rewrite Hparts in Hwho.
    destruct Hwho as [H | [H | [H | []]]]; discriminate.
Defined.

(** In [example_group] user 1 sends "hello" to user 2 over HTTP. *)
Lemma sendMessage_stores_then_fails_witness :
  exists c,
    conversations example_group !! 0 = Some c
    /\ In 1 (Conversation.participants c)
    /\ In 2 (Conversation.participants c)
    /\ fst (sendMessage 1 example_client 0 2 (js "hello") 200 example_group)
       = json 500 (Error "Failed to send message")
    /\ conversations
         (snd (sendMessage 1 example_client 0 2 (js "hello") 200 example_group))
       = conversations example_group
    /\ exists m,
         messages
           (snd (sendMessage 1 example_client 0 2 (js "hello") 200
                   example_group))
         = <[ Message._id m := m ]> (messages example_group)
         /\ Message.content m = js "hello"
         /\ Message.isEncrypted m = true.
Proof.
  destruct example_group_facts as (c & Hlook & _ & _ & Hparts & _).
  assert (H1 : In 1 (Conversation.participants c))
    by (rewrite Hparts; simpl; auto).
  assert (H2 : In 2 (Conversation.participants c))
    by (rewrite Hparts; simpl; auto).
  exists c. split; [exact Hlook|]. split; [exact H1|]. split; [exact H2|].
  destruct (sendMessage_stores_then_fails 1 example_client 0 2 (js "hello") 200
              example_group c Hlook H1 H2)
    as (Hfst & Hconv & _ & _ & Hstored).
  split; [exact Hfst|]. split; [exact Hconv|].
  destruct Hstored as (m & Hm & _ & _ & _ & _ & Hcontent & Hflag & _);
    [discriminate|].
  exists m. auto.
Defined.

(** In [example_group], where no message is stored yet, user 1 sends
    "hello" to user 2 over the socket and user 2 fetches the page. *)
Lemma socket_message_read_back_witness :
  exists earlier hasMore stored,
    getMessages xor_block_cipher example_key 2 0 None None
      (on_send_message xor_block_cipher example_key (example_socket 1)
         {| data_conversationId := Some 0; data_recipientId := Some 2;
            data_content := Some (js "hello") |} example_iv 200 example_group)
    = json 200
        (Messages (earlier ++ [Message.with_content (js "hello") stored])
           hasMore).
Proof.
  destruct example_group_facts as (c & Hlook & _ & _ & Hparts & _).
  destruct (socket_message_read_back xor_block_cipher xor_block_cipher
              example_key xor_block_cipher_length xor_block_cipher_inverse
              (example_socket 1) 0 2 2 (js "hello") example_iv 200 None
              example_group c)
    as (earlier & hasMore & stored & shown & Hpage & _ & Hshown & _).
  - reflexivity.
  - reflexivity.
  - discriminate.
  - exact Hlook.
  - rewrite Hparts. simpl. auto.
  - intros k x Hx. rewrite example_group_no_message, lookup_empty in Hx.
    discriminate.
  - discriminate.
  - exists earlier, hasMore, stored.
    rewrite (Hshown eq_refl) in Hpage. exact Hpage.
Defined.

(** The same over HTTP: the request fails and the page shows the
    marker. *)
Lemma http_message_read_back_witness :
  status (fst (sendMessage 1 example_client 0 2 (js "hello") 200 example_group))
  = 500
  /\ exists earlier hasMore stored,
       getMessages xor_block_cipher example_key 2 0 None None
         (snd (sendMessage 1 example_client 0 2 (js "hello") 200 example_group))
       = json 200
           (Messages
              (earlier ++ [Message.with_content decryption_failed stored])
              hasMore)
       /\ Message.content stored = js "hello".
Proof.
  destruct example_group_facts as (c & Hlook & _ & _ & Hparts & _).
  destruct (http_message_read_back xor_block_cipher example_key 1 2 2
              example_client 0 (js "hello") 200 None example_group c)
    as (Hstatus & earlier & hasMore & stored & Hpage & _ & Hcontent & _).
  - exact Hlook.
  - rewrite Hparts. simpl. auto.
  - rewrite Hparts. simpl. auto.
  - rewrite Hparts. simpl. auto.
  - discriminate.
  - reflexivity.
  - intros k x Hx. rewrite example_group_no_message, lookup_empty in Hx.
    discriminate.
  - discriminate.
  - split; [exact Hstatus|]. exists earlier, hasMore, stored. auto.
Defined.

(** After one send over the socket into an empty store, the stored
    message is flagged as encrypted. *)
Lemma stored_messages_are_flagged_witness :
  exists m,
    messages
      (run xor_block_cipher example_key
         [ (OnSendMessage (example_socket 1)
              {| data_conversationId := Some 0; data_recipientId := Some 2;
                 data_content := Some (js "hello") |} example_iv, 200%Z) ]
         empty_world) !! 0 = Some m
    /\ Message._id m = 0
    /\ Message.isEncrypted m = true.
Proof.
  eexists. split; [vm_compute; reflexivity|].
  edestruct (stored_messages_are_flagged xor_block_cipher xor_block_cipher
               example_key
               [ (OnSendMessage (example_socket 1)
                    {| data_conversationId := Some 0;
                       data_recipientId := Some 2;
                       data_content := Some (js "hello") |} example_iv,
                  200%Z) ] 0)
    as (Hid & Hflag & _); [vm_compute; reflexivity|].
  split; [exact Hid | exact Hflag].
Defined.

(** In [example_last_message] the group 0 records the content "hello"
    as its last message. *)
Lemma undecryptable_last_message_fails_witness :
  getConversations xor_block_cipher example_key 1 example_last_message
  = (500, Throws "Server error")
  /\ getConversationById xor_block_cipher example_key 1 0 example_last_message
     = json 500 (Error "Server error").
Proof.
  eapply (undecryptable_last_message_fails xor_block_cipher example_key 1 0
            example_last_message).
  - vm_compute. reflexivity.
  - vm_compute. auto.
  - vm_compute. reflexivity.
  - vm_compute. reflexivity.
Defined.

(** A payload without content, on the connection of user 1. *)
Lemma on_send_message_stores_iff_witness :
  exists reason,
    on_send_message xor_block_cipher example_key (example_socket 1)
      {| data_conversationId := Some 0; data_recipientId := Some 2;
         data_content := None |} example_iv 200 example_group
    = emit (ToSocket (socket_id (example_socket 1))) "error" (PError reason)
        example_group.
Proof.
  destruct (on_send_message_stores_iff xor_block_cipher example_key
              (example_socket 1)
              {| data_conversationId := Some 0; data_recipientId := Some 2;
                 data_content := None |} example_iv 200 example_group)
    as (_ & _ & Hrefused).
  destruct Hrefused as (reason & Heq & _); [reflexivity|].
  exists reason. exact Heq.
Defined.


(** The round trip of "hello" under the default key of
    [utils/encryption.js]. *)
Lemma decrypt_encrypt_witness :
  exists encrypted,
    encrypt xor_block_cipher None example_iv (js "hello") = Returns encrypted
    /\ decrypt xor_block_cipher None encrypted = js "hello".
Proof.
  destruct (decrypt_encrypt xor_block_cipher xor_block_cipher
              xor_block_cipher_length xor_block_cipher_inverse None example_iv
              (js "hello")) as (encrypted & Henc & Hdec & _).
  - apply one_byte_chars_check. vm_compute. reflexivity.
  - reflexivity.
  - reflexivity.
  - exists encrypted. auto.
Defined.

(** A text that was never encrypted. *)
Lemma decrypt_passes_plain_text_witness :
  decrypt xor_block_cipher None (js "hello") = js "hello".
Proof.
  apply (decrypt_passes_plain_text xor_block_cipher None (js "hello")).
  left. reflexivity.
Defined.

(** User 2 asks for a page of no message of the group 0 of
    [example_chat], which holds one message. *)
Lemma getMessages_limit_zero_witness :
  exists hasMore,
    getMessages xor_block_cipher example_key 2 0 (Some 0) None example_chat
    = json 200 (Messages [] hasMore).
Proof.
  destruct example_chat_facts as [_ (c & Hlook & _ & Hparts)].
  destruct (getMessages_limit_zero xor_block_cipher example_key 2 0 None
              example_chat c Hlook) as (hasMore & Hpage & _).
  - rewrite Hparts. simpl. auto.
  - exists hasMore. exact Hpage.
Defined.

(** In [example_chat] user 2 marks the message 0 as read over HTTP. *)
Lemma stored_message_only_marked_read_witness :
  exists m m',
    messages example_chat !! 0 = Some m
    /\ messages
         (serve xor_block_cipher example_key (MarkAsRead 2 0) 300 example_chat)
         !! 0 = Some m'
    /\ (m' = m \/ m' = Message.mark_read 300 m).
Proof.
  eexists. eexists.
  split; [vm_compute; reflexivity|]. split; [vm_compute; reflexivity|].
  eapply (stored_message_only_marked_read xor_block_cipher example_key
            (MarkAsRead 2 0) 300 example_chat 0);
    vm_compute; reflexivity.
Defined.
